(** * insight-example: the four dashboard views, embedded and verified

    The repository is a browser dashboard with four React components, each
    of which fetches a page of ERC-20 [Transfer] events and aggregates it in
    memory:

    - [UsdcTransfers]      src/components/UsdcTransfers.tsx      (recent-transfers table)
    - [UsdcTransferChart]  src/components/UsdcTransferChart.tsx  (volume per minute)
    - [TopUsdcWallets]     the top-wallets table                 (group by address)
    - [UsdcVolumeChart]    the transactions-per-minute chart     (count per minute)

    Modelling decisions, valid for the whole file:

    - A JavaScript string is a [string]; one [ascii] stands for one UTF-16
      code unit (the hex fields of the API are plain ASCII).
    - A JavaScript number is a [number]: [NaN] or an exact rational.  The
      rounding of IEEE-754 doubles and the infinities are outside the model.
    - The body of each [async] fetch function is a computation in a small
      state-and-exception monad over the component's React state and the
      console; the outcome of the network call is an input of the
      computation.
    - What depends on the browser (time zone, locale, the digits of a very
      large number) is a field of [Host], over which the theorems
      quantify.
    - [Array.prototype.sort] is the stable insertion sort: ECMAScript
      requires stability, which fixes the result for every consistent
      comparator.
    - A [Map] and a plain object used as a dictionary are association lists
      in insertion order, which is the order [Map.prototype.values] and
      [Object.entries] enumerate (the keys used here are never
      integer-like). *)

From Stdlib Require Import ZArith QArith Qcanon Qround Qabs List String Ascii Bool Lia.
From Stdlib Require Import Permutation Sorted DecimalString.
Import ListNotations.

Set Implicit Arguments.

#[local] Close Scope Q_scope.
#[local] Open Scope string_scope.
#[local] Open Scope list_scope.
#[local] Open Scope Z_scope.

(* ===================================================================== *)
(** * JavaScript primitives used by the components *)
(* ===================================================================== *)

Module JS.

(** ** Numbers *)

Inductive number : Type :=
| NaN : number
| Fin : Qc -> number.

Definition ofZ (z : Z) : number := Fin (Q2Qc (inject_Z z)).

Definition ofNat (n : nat) : number := ofZ (Z.of_nat n).

Definition add (a b : number) : number :=
  match a, b with
  | Fin x, Fin y => Fin (x + y)%Qc
  | _, _ => NaN
  end.

Definition sub (a b : number) : number :=
  match a, b with
  | Fin x, Fin y => Fin (x - y)%Qc
  | _, _ => NaN
  end.

Definition mul (a b : number) : number :=
  match a, b with
  | Fin x, Fin y => Fin (x * y)%Qc
  | _, _ => NaN
  end.

(** [a / b].  A zero divisor gives [NaN] here; JavaScript gives an infinity
    for a non-zero dividend, but the components only divide by [1e6] and by
    a [transferCount] that has just been incremented. *)
Definition div (a b : number) : number :=
  match a, b with
  | Fin x, Fin y =>
      match (y ?= 0)%Qc with
      | Eq => NaN
      | _ => Fin (x / y)%Qc
      end
  | _, _ => NaN
  end.

Definition _1e6 : number := ofZ 1000000.

(** The sign of a comparator's result as [Array.prototype.sort] reads it:
    a [NaN] result counts as [+0]. *)
Definition sign (v : number) : comparison :=
  match v with
  | NaN => Eq
  | Fin q => (q ?= 0)%Qc
  end.

(** ** Strings *)

(** [s.slice(start)] for a non-negative [start]. *)
Fixpoint slice (start : nat) (s : string) : string :=
  match start, s with
  | O, _ => s
  | S n, EmptyString => EmptyString
  | S n, String _ s' => slice n s'
  end.

(** [s.padStart(2, '0')]. *)
Definition padStart2 (s : string) : string :=
  match String.length s with
  | 0%nat => "00"
  | 1%nat => String "0" s
  | _ => s
  end.

(** White space that [parseInt] skips, among the code units below 256. *)
Definition isWhiteSpace (c : ascii) : bool :=
  let n := nat_of_ascii c in
  ((9 <=? n) && (n <=? 13) || (n =? 32) || (n =? 160))%nat.

Fixpoint trimStart (s : string) : string :=
  match s with
  | String c s' => if isWhiteSpace c then trimStart s' else s
  | EmptyString => EmptyString
  end.

Definition hexDigit (c : ascii) : option Z :=
  let n := Z.of_nat (nat_of_ascii c) in
  if (48 <=? n) && (n <=? 57) then Some (n - 48)
  else if (97 <=? n) && (n <=? 102) then Some (n - 87)
  else if (65 <=? n) && (n <=? 70) then Some (n - 55)
  else None.

(** The value of the longest prefix of hex digits, or [None] when that
    prefix is empty; [acc] is the value read so far and [seen] tells
    whether a digit was read. *)
Fixpoint hexPrefix (acc : Z) (seen : bool) (s : string) : option Z :=
  match s with
  | String c s' =>
      match hexDigit c with
      | Some d => hexPrefix (16 * acc + d) true s'
      | None => if seen then Some acc else None
      end
  | EmptyString => if seen then Some acc else None
  end.

Definition stripSign (s : string) : bool * string :=
  match s with
  | String "-" s' => (true, s')
  | String "+" s' => (false, s')
  | _ => (false, s)
  end.

Definition strip0x (s : string) : string :=
  match s with
  | String "0" (String "x" s') => s'
  | String "0" (String "X" s') => s'
  | _ => s
  end.

(** [parseInt(s, 16)]: skip white space, read a sign, skip one [0x], read
    hex digits for as long as there are some. *)
Definition parseInt16 (s : string) : number :=
  let (neg, body) := stripSign (trimStart s) in
  match hexPrefix 0 false (strip0x body) with
  | Some v => ofZ (if neg then - v else v)
  | None => NaN
  end.

(** Decimal digits of a natural number. *)
Definition decimal (n : Z) : string :=
  NilZero.string_of_uint (N.to_uint (Z.to_N n)).

Definition _1e21 : Qc := Q2Qc (inject_Z (10 ^ 21)).

Definition Qcabs (q : Qc) : Qc := Q2Qc (Qabs q).

(** The integer [n] for which [n / 100] is nearest to [q >= 0], the larger
    one on a tie, as [Number.prototype.toFixed] picks it.  (In JavaScript
    the tie is decided on the double nearest to [q]; the theorems below do
    not rely on the result at a tie.) *)
Definition nearestHundredth (q : Qc) : Z :=
  Qfloor (q * Q2Qc (inject_Z 100) + Q2Qc (1 # 2))%Qc.

(** [n] hundredths written with two decimals. *)
Definition fixed2 (n : Z) : string :=
  (decimal (n / 100) ++ "." ++ padStart2 (decimal (n mod 100)))%string.

(** The host-dependent parts of the language: the formatting of a number
    of magnitude [1e21] or more (the shortest digits that read back as the
    same double), the local time zone, and the locale's time format and
    date parser. *)
Record Host : Type := {
  numberToString : Qc -> string;
  (** seconds to add to a Unix time to obtain local wall-clock time *)
  localOffset : Z -> Z;
  (** [new Date(ms).toLocaleTimeString([], {hour: '2-digit',
      minute: '2-digit', hour12: false})], as a function of the Unix time in
      seconds *)
  toLocaleTimeString : Z -> string;
  (** [new Date(s).getTime()] *)
  dateParse : string -> number
}.

(** [x.toFixed(2)]. *)
Definition toFixed2 (host : Host) (x : number) : string :=
  match x with
  | NaN => "NaN"
  | Fin q =>
      match (Qcabs q ?= _1e21)%Qc with
      | Lt =>
          ((match (q ?= 0)%Qc with Lt => "-" | _ => "" end)
             ++ fixed2 (nearestHundredth (Qcabs q)))%string
      | _ => numberToString host q
      end
  end.

(** [Number(x.toFixed(2))]: the value of the string above.  From [1e21] on
    the string is the number's own shortest form, which reads back as the
    number itself. *)
Definition NumberOfFixed2 (x : number) : number :=
  match x with
  | NaN => NaN
  | Fin q =>
      match (Qcabs q ?= _1e21)%Qc with
      | Lt =>
          let n := nearestHundredth (Qcabs q) in
          Fin (Q2Qc ((match (q ?= 0)%Qc with Lt => - n | _ => n end) # 100))
      | _ => x
      end
  end.

Definition decimalDigit (c : ascii) : option Z :=
  let n := Z.of_nat (nat_of_ascii c) in
  if (48 <=? n) && (n <=? 57) then Some (n - 48) else None.

Fixpoint decimalValue (acc : Z) (s : string) : option Z :=
  match s with
  | EmptyString => Some acc
  | String c s' =>
      match decimalDigit c with
      | Some d => decimalValue (10 * acc + d) s'
      | None => None
      end
  end.

(** [Number(s)] on the strings the components pass to it: a run of decimal
    digits is its value (the empty string is 0); anything else met here,
    such as the text [NaN], is not a number.  (The signs, fractions,
    exponents and radix prefixes that [Number] also reads never occur in a
    minute label.) *)
Definition NumberOfString (s : string) : number :=
  match decimalValue 0 s with
  | Some v => ofZ v
  | None => NaN
  end.

(** [String(n)] for an integer or [NaN]. *)
Definition StringOfInt (n : option Z) : string :=
  match n with
  | None => "NaN"
  | Some z => if z <? 0 then String "-" (decimal (- z)) else decimal z
  end.

(** [s.split(sep)] for a one-character separator; [cur] is the piece being
    read. *)
Fixpoint splitAux (sep : ascii) (cur : string) (s : string) : list string :=
  match s with
  | EmptyString => [cur]
  | String c s' =>
      if Ascii.eqb c sep then cur :: splitAux sep EmptyString s'
      else splitAux sep (cur ++ String c EmptyString)%string s'
  end.

Definition split (sep : ascii) (s : string) : list string :=
  splitAux sep EmptyString s.

(** ** Exceptions *)

Inductive exn : Type :=
| Exn (message : string).

Definition message (e : exn) : string :=
  match e with Exn m => m end.

(** The [TypeError] of a member access on [undefined]; the wording is
    V8's, and nothing below depends on it. *)
Definition TypeError (member : string) : exn :=
  Exn ("Cannot read properties of undefined (reading '" ++ member ++ "')")%string.

Inductive result (A : Type) : Type :=
| Ok (a : A)
| Throw (e : exn).

Arguments Ok {A} a.
Arguments Throw {A} e.

Definition rbind {A B : Type} (r : result A) (k : A -> result B) : result B :=
  match r with
  | Ok a => k a
  | Throw e => Throw e
  end.

(** [arr.map(f)] for a callback that may throw. *)
Fixpoint mapR {A B : Type} (f : A -> result B) (l : list A) : result (list B) :=
  match l with
  | [] => Ok []
  | x :: l' =>
      rbind (f x) (fun y => rbind (mapR f l') (fun ys => Ok (y :: ys)))
  end.

(** [arr.forEach(f)] threading the state [f] mutates, for a callback that
    may throw. *)
Fixpoint forEachR {A S : Type} (f : S -> A -> result S) (st : S) (l : list A)
  : result S :=
  match l with
  | [] => Ok st
  | x :: l' => rbind (f st x) (fun st' => forEachR f st' l')
  end.

(** ** [Array.prototype.sort]

    The comparator's result [v] places [a] after [b] when [v > 0] and
    leaves them in their order otherwise. *)
Section Sort.
Variable A : Type.

Variable compareFn : A -> A -> number.

Fixpoint insert (x : A) (l : list A) : list A :=
  match l with
  | [] => [x]
  | y :: l' =>
      match sign (compareFn x y) with
      | Gt => y :: insert x l'
      | _ => x :: l
      end
  end.

Fixpoint sort (l : list A) : list A :=
  match l with
  | [] => []
  | x :: l' => insert x (sort l')
  end.

(** The same with a comparator that may throw. *)
Variable compareR : A -> A -> result number.

Fixpoint insertR (x : A) (l : list A) : result (list A) :=
  match l with
  | [] => Ok [x]
  | y :: l' =>
      rbind (compareR x y) (fun v =>
        match sign v with
        | Gt => rbind (insertR x l') (fun r => Ok (y :: r))
        | _ => Ok (x :: l)
        end)
  end.

Fixpoint sortR (l : list A) : result (list A) :=
  match l with
  | [] => Ok []
  | x :: l' => rbind (sortR l') (insertR x)
  end.
End Sort.

(** ** Dates *)

(** A [Date] holds a time value only within 8.64e15 ms of the epoch. *)
Definition validDate (seconds : Z) : bool :=
  Z.abs (seconds * 1000) <=? 8640000000000000.

(** [new Date(seconds * 1000).getHours()], [None] standing for [NaN]. *)
Definition getHours (host : Host) (seconds : Z) : option Z :=
  if validDate seconds
  then Some (((seconds + localOffset host seconds) / 3600) mod 24)
  else None.

Definition getMinutes (host : Host) (seconds : Z) : option Z :=
  if validDate seconds
  then Some (((seconds + localOffset host seconds) / 60) mod 60)
  else None.

End JS.

Import JS.

(* ===================================================================== *)
(** * The events API and the body of an [async] function *)
(* ===================================================================== *)

Module API.

(** One element of the response's [data] array.  [data] is [None] when the
    member is missing, so that [event.data.slice] throws; a missing topic
    is an index past the end of [topics]. *)
Record Event : Type := {
  block_timestamp : Z;
  transaction_hash : string;
  data : option string;
  topics : list string
}.

(** What [await fetch(url)] followed by [await response.json()] yields:
    a rejection, or the parsed body, whose [data] member may be absent. *)
Inductive Fetched : Type :=
| Rejected (e : exn)
| Body (data : option (list Event)).

(** [event.data.slice(2)] *)
Definition dataSlice2 (event : Event) : result string :=
  match data event with
  | Some d => Ok (slice 2 d)
  | None => Throw (TypeError "slice")
  end.

(** [event.topics[i].slice(26)] *)
Definition topicSlice26 (i : nat) (event : Event) : result string :=
  match nth_error (topics event) i with
  | Some t => Ok (slice 26 t)
  | None => Throw (TypeError "slice")
  end.

(** [if (!data?.data?.length) throw new Error('No transfer data received')] *)
Definition requireData (body : option (list Event)) : result (list Event) :=
  match body with
  | Some (e :: l) => Ok (e :: l)
  | _ => Throw (Exn "No transfer data received")
  end.

End API.

Module Effect.

Section Monad.
(** The component's state, with the console. *)
Variable St : Type.

Definition M (A : Type) : Type := St -> result A * St.

Definition ret {A : Type} (a : A) : M A := fun s => (Ok a, s).

Definition bind {A B : Type} (m : M A) (k : A -> M B) : M B :=
  fun s =>
    match m s with
    | (Ok a, s') => k a s'
    | (Throw e, s') => (Throw e, s')
    end.

Definition lift {A : Type} (r : result A) : M A := fun s => (r, s).

Definition modify (f : St -> St) : M unit := fun s => (Ok tt, f s).

(** [await] of the network call whose outcome is [fetched]. *)
Definition await (fetched : API.Fetched) : M (option (list API.Event)) :=
  match fetched with
  | API.Rejected e => lift (Throw e)
  | API.Body d => ret d
  end.

(** [try { body } catch (error) { handler } finally { cleanup }] *)
Definition tryCatchFinally (body : M unit) (handler : exn -> M unit)
           (cleanup : M unit) : M unit :=
  fun s =>
    let (r, s1) :=
      match body s with
      | (Ok a, s') => (Ok a, s')
      | (Throw e, s') => handler e s'
      end in
    match cleanup s1 with
    | (Ok _, s2) => (r, s2)
    | (Throw e, s2) => (Throw e, s2)
    end.
End Monad.

End Effect.

Declare Scope effect_scope.
Delimit Scope effect_scope with effect.
Notation "x <- m ;; k" := (Effect.bind m (fun x => k))
  (at level 61, m at next level, right associativity) : effect_scope.
Notation "m ;; k" := (Effect.bind m (fun _ => k))
  (at level 61, right associativity) : effect_scope.

(* ===================================================================== *)
(** * src/components/UsdcTransfers.tsx *)
(* ===================================================================== *)

Module UsdcTransfers.
Import API.

Definition Transfer : Type := Event.

(** The three [useState] cells, and what [console.error] has printed. *)
Record State : Type := {
  transfers : list Transfer;
  loading : bool;
  isRefreshing : bool;
  console : list exn
}.

Definition initial : State :=
  {| transfers := []; loading := true; isRefreshing := false; console := [] |}.

Definition setTransfers (v : list Transfer) : Effect.M State unit :=
  Effect.modify (fun s =>
    {| transfers := v; loading := loading s;
       isRefreshing := isRefreshing s; console := console s |}).

Definition setLoading (v : bool) : Effect.M State unit :=
  Effect.modify (fun s =>
    {| transfers := transfers s; loading := v;
       isRefreshing := isRefreshing s; console := console s |}).

Definition setIsRefreshing (v : bool) : Effect.M State unit :=
  Effect.modify (fun s =>
    {| transfers := transfers s; loading := loading s;
       isRefreshing := v; console := console s |}).

Definition consoleError (e : exn) : Effect.M State unit :=
  Effect.modify (fun s =>
    {| transfers := transfers s; loading := loading s;
       isRefreshing := isRefreshing s; console := console s ++ [e] |}).

(** [parseInt(a.data.slice(2), 16) / 1e6] *)
Definition amountOf (a : Transfer) : result number :=
  rbind (dataSlice2 a) (fun hex => Ok (div (parseInt16 hex) _1e6)).

(** The comparator of the sort: [amountB - amountA]. *)
Definition compareAmount (a b : Transfer) : result number :=
  rbind (amountOf a) (fun amountA =>
  rbind (amountOf b) (fun amountB =>
  Ok (sub amountB amountA))).

(** [data.data.sort(...)] *)
Definition sortTransfers (body : option (list Event)) : result (list Transfer) :=
  match body with
  | Some arr => sortR compareAmount arr
  | None => Throw (TypeError "sort")
  end.

Definition getUsdcTransfers (fetched : Fetched) : Effect.M State unit :=
  Effect.tryCatchFinally
    (setIsRefreshing true ;;
     data <- Effect.await fetched ;;
     sortedTransfers <- Effect.lift (sortTransfers data) ;;
     setTransfers sortedTransfers)%effect
    (fun error => consoleError error)
    (setLoading false ;;
     setIsRefreshing false)%effect.

Definition decodeAddress (topic : string) : string :=
  ("0x" ++ slice 26 topic)%string.

Definition decodeAmount (host : Host) (data : string) : string :=
  let hex := slice 2 data in
  toFixed2 host (div (parseInt16 hex) _1e6).

(** The component holds no error in its state, and its markup has no
    place for one. *)
Definition errorMessage (s : State) : option string := None.

End UsdcTransfers.

(* ===================================================================== *)
(** * src/components/UsdcTransferChart.tsx *)
(* ===================================================================== *)

(** The calls of [console.log] print and change nothing; they are left
    out.  [console.error] is kept, as the list of what it printed. *)

Module UsdcTransferChart.
Import API.

Definition TransferEvent : Type := Event.

Record ChartData : Type := {
  timestamp : string;
  amount : number
}.

Record State : Type := {
  chartData : list ChartData;
  loading : bool;
  error : option string;
  isRefreshing : bool;
  console : list exn
}.

Definition initial : State :=
  {| chartData := []; loading := true; error := None; isRefreshing := false;
     console := [] |}.

Definition setChartData (v : list ChartData) : Effect.M State unit :=
  Effect.modify (fun s =>
    {| chartData := v; loading := loading s; error := error s;
       isRefreshing := isRefreshing s; console := console s |}).

Definition setLoading (v : bool) : Effect.M State unit :=
  Effect.modify (fun s =>
    {| chartData := chartData s; loading := v; error := error s;
       isRefreshing := isRefreshing s; console := console s |}).

Definition setError (v : option string) : Effect.M State unit :=
  Effect.modify (fun s =>
    {| chartData := chartData s; loading := loading s; error := v;
       isRefreshing := isRefreshing s; console := console s |}).

Definition setIsRefreshing (v : bool) : Effect.M State unit :=
  Effect.modify (fun s =>
    {| chartData := chartData s; loading := loading s; error := error s;
       isRefreshing := v; console := console s |}).

Definition consoleError (e : exn) : Effect.M State unit :=
  Effect.modify (fun s =>
    {| chartData := chartData s; loading := loading s; error := error s;
       isRefreshing := isRefreshing s; console := console s ++ [e] |}).

Section WithHost.
Variable host : Host.

(** The callback of [.map]: one chart point per event. *)
Definition formatEvent (event : TransferEvent) : result ChartData :=
  rbind (dataSlice2 event) (fun hex =>
    let amount := div (parseInt16 hex) _1e6 in
    Ok {| timestamp := toLocaleTimeString host (block_timestamp event);
          amount := NumberOfFixed2 amount |}).

(** The callback of [.reduce]: add to the first entry of the same minute,
    or push a new one. *)
Fixpoint aggregate (acc : list ChartData) (curr : ChartData) : list ChartData :=
  match acc with
  | [] => [curr]
  | item :: rest =>
      if String.eqb (timestamp item) (timestamp curr)
      then {| timestamp := timestamp item;
              amount := add (amount item) (amount curr) |} :: rest
      else item :: aggregate rest curr
  end.

(** The comparator of the final sort. *)
Definition chronological (a b : ChartData) : number :=
  sub (dateParse host ("1970/01/01 " ++ timestamp a)%string)
      (dateParse host ("1970/01/01 " ++ timestamp b)%string).

Definition formatData (events : list TransferEvent) : result (list ChartData) :=
  rbind (mapR formatEvent events) (fun mapped =>
    Ok (sort chronological (fold_left aggregate mapped []))).

Definition getUsdcTransfers (fetched : Fetched) : Effect.M State unit :=
  Effect.tryCatchFinally
    (setIsRefreshing true ;;
     setError None ;;
     data <- Effect.await fetched ;;
     events <- Effect.lift (requireData data) ;;
     formattedData <- Effect.lift (formatData events) ;;
     setChartData formattedData)%effect
    (fun error =>
       consoleError error ;;
       setError (Some (message error)))%effect
    (setLoading false ;;
     setIsRefreshing false)%effect.
End WithHost.

Definition errorMessage (s : State) : option string := error s.

End UsdcTransferChart.

(* ===================================================================== *)
(** * The top-wallets table (component [TopUsdcWallets]) *)
(* ===================================================================== *)

Module TopUsdcWallets.
Import API.

Definition TransferEvent : Type := Event.

Record WalletSummary : Type := {
  address : string;
  totalAmount : number;
  transferCount : nat;
  averageAmount : number
}.

Record State : Type := {
  walletStats : list WalletSummary;
  loading : bool;
  isRefreshing : bool;
  error : option string;
  console : list exn
}.

Definition initial : State :=
  {| walletStats := []; loading := true; isRefreshing := false; error := None;
     console := [] |}.

Definition setWalletStats (v : list WalletSummary) : Effect.M State unit :=
  Effect.modify (fun s =>
    {| walletStats := v; loading := loading s; isRefreshing := isRefreshing s;
       error := error s; console := console s |}).

Definition setLoading (v : bool) : Effect.M State unit :=
  Effect.modify (fun s =>
    {| walletStats := walletStats s; loading := v;
       isRefreshing := isRefreshing s; error := error s;
       console := console s |}).

Definition setIsRefreshing (v : bool) : Effect.M State unit :=
  Effect.modify (fun s =>
    {| walletStats := walletStats s; loading := loading s; isRefreshing := v;
       error := error s; console := console s |}).

Definition setError (v : option string) : Effect.M State unit :=
  Effect.modify (fun s =>
    {| walletStats := walletStats s; loading := loading s;
       isRefreshing := isRefreshing s; error := v; console := console s |}).

Definition consoleError (e : exn) : Effect.M State unit :=
  Effect.modify (fun s =>
    {| walletStats := walletStats s; loading := loading s;
       isRefreshing := isRefreshing s; error := error s;
       console := console s ++ [e] |}).

(** [Map<string, WalletSummary>], in insertion order. *)
Definition WalletMap : Type := list (string * WalletSummary).

Fixpoint has (key : string) (m : WalletMap) : bool :=
  match m with
  | [] => false
  | (k, _) :: m' => if String.eqb k key then true else has key m'
  end.

Fixpoint get (key : string) (m : WalletMap) : option WalletSummary :=
  match m with
  | [] => None
  | (k, w) :: m' => if String.eqb k key then Some w else get key m'
  end.

(** [Map.prototype.set]: replace the value in place, or append the key. *)
Fixpoint set (key : string) (w : WalletSummary) (m : WalletMap) : WalletMap :=
  match m with
  | [] => [(key, w)]
  | (k, w') :: m' =>
      if String.eqb k key then (k, w) :: m' else (k, w') :: set key w m'
  end.

Definition values (m : WalletMap) : list WalletSummary := map snd m.

(** The three assignments to the summary the map holds for a wallet. *)
Definition credit (amount : number) (wallet : WalletSummary) : WalletSummary :=
  let total := add (totalAmount wallet) amount in
  let count := S (transferCount wallet) in
  {| address := address wallet;
     totalAmount := total;
     transferCount := count;
     averageAmount := div total (ofNat count) |}.

(** One side of a transfer: create the summary if the wallet is new, then
    update the object the map holds. *)
Definition updateWallet (addr : string) (amount : number) (walletMap : WalletMap)
  : WalletMap :=
  let walletMap :=
    if negb (has addr walletMap)
    then set addr {| address := addr; totalAmount := ofZ 0;
                     transferCount := 0; averageAmount := ofZ 0 |} walletMap
    else walletMap in
  match get addr walletMap with
  | Some wallet => set addr (credit amount wallet) walletMap
  | None => walletMap
  end.

(** The callback of [data.data.forEach]. *)
Definition processEvent (walletMap : WalletMap) (event : TransferEvent)
  : result WalletMap :=
  rbind (dataSlice2 event) (fun hex =>
    let amount := div (parseInt16 hex) _1e6 in
    rbind (topicSlice26 1 event) (fun from =>
      let fromAddress := ("0x" ++ from)%string in
      rbind (topicSlice26 2 event) (fun to =>
        let toAddress := ("0x" ++ to)%string in
        Ok (updateWallet toAddress amount
              (updateWallet fromAddress amount walletMap))))).

Definition byVolume (a b : WalletSummary) : number :=
  sub (totalAmount b) (totalAmount a).

(** [Array.from(walletMap.values()).sort(...).slice(0, 10)] *)
Definition sortedWallets (walletMap : WalletMap) : list WalletSummary :=
  firstn 10 (sort byVolume (values walletMap)).

Definition getTopWallets (fetched : Fetched) : Effect.M State unit :=
  Effect.tryCatchFinally
    (setIsRefreshing true ;;
     setError None ;;
     data <- Effect.await fetched ;;
     events <- Effect.lift (requireData data) ;;
     walletMap <- Effect.lift (forEachR processEvent [] events) ;;
     setWalletStats (sortedWallets walletMap))%effect
    (fun error =>
       consoleError error ;;
       setError (Some (message error)))%effect
    (setLoading false ;;
     setIsRefreshing false)%effect.

Definition errorMessage (s : State) : option string := error s.

End TopUsdcWallets.

(* ===================================================================== *)
(** * The transactions-per-minute chart (component [UsdcVolumeChart]) *)
(* ===================================================================== *)

Module UsdcVolumeChart.
Import API.

Definition Transfer : Type := Event.

Record VolumeData : Type := {
  minute : string;
  volume : nat
}.

Record State : Type := {
  volumeData : list VolumeData;
  loading : bool;
  isRefreshing : bool;
  error : option string;
  console : list exn
}.

Definition initial : State :=
  {| volumeData := []; loading := true; isRefreshing := false; error := None;
     console := [] |}.

Definition setVolumeData (v : list VolumeData) : Effect.M State unit :=
  Effect.modify (fun s =>
    {| volumeData := v; loading := loading s; isRefreshing := isRefreshing s;
       error := error s; console := console s |}).

Definition setLoading (v : bool) : Effect.M State unit :=
  Effect.modify (fun s =>
    {| volumeData := volumeData s; loading := v;
       isRefreshing := isRefreshing s; error := error s;
       console := console s |}).

Definition setIsRefreshing (v : bool) : Effect.M State unit :=
  Effect.modify (fun s =>
    {| volumeData := volumeData s; loading := loading s; isRefreshing := v;
       error := error s; console := console s |}).

Definition setError (v : option string) : Effect.M State unit :=
  Effect.modify (fun s =>
    {| volumeData := volumeData s; loading := loading s;
       isRefreshing := isRefreshing s; error := v; console := console s |}).

Definition consoleError (e : exn) : Effect.M State unit :=
  Effect.modify (fun s =>
    {| volumeData := volumeData s; loading := loading s;
       isRefreshing := isRefreshing s; error := error s;
       console := console s ++ [e] |}).

(** The accumulator [{ [key: string]: number }], in insertion order. *)
Definition Counts : Type := list (string * nat).

(** [acc[minute] = (acc[minute] || 0) + 1] *)
Fixpoint increment (minute : string) (acc : Counts) : Counts :=
  match acc with
  | [] => [(minute, 0 + 1)%nat]
  | (k, v) :: acc' =>
      if String.eqb k minute
      then (k, (match v with O => 0 | _ => v end) + 1)%nat :: acc'
      else (k, v) :: increment minute acc'
  end.

Section WithHost.
Variable host : Host.

(** The [HH:mm] label of a block time, in local time. *)
Definition minuteOf (transfer : Transfer) : string :=
  let timestamp := block_timestamp transfer in
  (padStart2 (StringOfInt (getHours host timestamp)) ++ ":"
     ++ padStart2 (StringOfInt (getMinutes host timestamp)))%string.

(** The callback of [.reduce]. *)
Definition countTransfer (acc : Counts) (transfer : Transfer) : Counts :=
  increment (minuteOf transfer) acc.

(** [const [hour, min] = label.split(':').map(Number)] followed by
    [hour * 60 + min]; a missing piece is [undefined], which makes the
    sum [NaN]. *)
Definition minutesSinceMidnight (label : string) : number :=
  match map NumberOfString (split ":" label) with
  | hour :: min :: _ => add (mul hour (ofZ 60)) min
  | _ => NaN
  end.

Definition byTime (a b : VolumeData) : number :=
  sub (minutesSinceMidnight (minute a)) (minutesSinceMidnight (minute b)).

(** [Object.entries(volumeByMinute).map(...).sort(...)] *)
Definition sortedData (events : list Transfer) : list VolumeData :=
  let volumeByMinute := fold_left countTransfer events [] in
  sort byTime
    (map (fun entry => {| minute := fst entry; volume := snd entry |})
         volumeByMinute).

Definition getVolumeData (fetched : Fetched) : Effect.M State unit :=
  Effect.tryCatchFinally
    (setIsRefreshing true ;;
     setError None ;;
     data <- Effect.await fetched ;;
     events <- Effect.lift (requireData data) ;;
     setVolumeData (sortedData events))%effect
    (fun error =>
       consoleError error ;;
       setError (Some (message error)))%effect
    (setLoading false ;;
     setIsRefreshing false)%effect.
End WithHost.

Definition errorMessage (s : State) : option string := error s.

End UsdcVolumeChart.

(* ===================================================================== *)
(** * A concrete host, for running the components *)
(* ===================================================================== *)

(** A browser whose time zone is UTC. *)
Definition utcClock : Host :=
  {| numberToString := fun _ => "";
     localOffset := fun _ => 0;
     toLocaleTimeString := fun _ => "";
     dateParse := fun _ => NaN |}.

(** A browser in UTC whose locale writes times as [HH:mm] and whose date
    parser reads [1970/01/01 HH:mm] as that many minutes, in milliseconds. *)
Definition utc : Host :=
  {| numberToString := fun _ => "";
     localOffset := fun _ => 0;
     toLocaleTimeString := fun t =>
       UsdcVolumeChart.minuteOf utcClock
         {| API.block_timestamp := t; API.transaction_hash := "";
            API.data := None; API.topics := [] |};
     dateParse := fun s =>
       mul (UsdcVolumeChart.minutesSinceMidnight (slice 11 s)) (ofZ 60000) |}.

(** A transfer of [amount] (hex) from [from] to [to] (40 hex digits each)
    in a block at time [t]. *)
Definition transferEvent (t : Z) (from to amount : string) : API.Event :=
  {| API.block_timestamp := t;
     API.transaction_hash := "";
     API.data := Some ("0x" ++ amount)%string;
     API.topics :=
       ["0xddf252ad1be2c89b69c2b068fc378daa952ba7f163c4a11628f55a4df523b3ef";
        ("0x000000000000000000000000" ++ from)%string;
        ("0x000000000000000000000000" ++ to)%string] |}.

(* ===================================================================== *)
(** * Notions of the specification *)
(* ===================================================================== *)

Module Spec.

(** A non-empty run of hex digits. *)
Fixpoint isHexDigits (s : string) : bool :=
  match s with
  | EmptyString => true
  | String c s' =>
      match hexDigit c with
      | Some _ => isHexDigits s'
      | None => false
      end
  end.

Definition digitValue (c : ascii) : Z :=
  match hexDigit c with
  | Some d => d
  | None => 0
  end.

(** The base-16 unsigned integer a string of hex digits denotes: each
    digit weighs 16 to the number of digits after it. *)
Fixpoint hexValue (s : string) : Z :=
  match s with
  | EmptyString => 0
  | String c s' => digitValue c * 16 ^ Z.of_nat (String.length s') + hexValue s'
  end.

(** The error kinds of the specification, read on the outcome of the
    network call.  [NetworkError]: the call rejects.  [EmptyResponse]: the
    body has no [data] array, or an empty one.  [MalformedEvent]: a field
    that the view decodes is missing from an event of the batch. *)
Definition NetworkError (fetched : API.Fetched) : Prop :=
  exists e, fetched = API.Rejected e.

Definition EmptyResponse (fetched : API.Fetched) : Prop :=
  fetched = API.Body None \/ fetched = API.Body (Some []).

Definition lacksData (event : API.Event) : Prop :=
  API.data event = None.

Definition lacksAddress (event : API.Event) : Prop :=
  nth_error (API.topics event) 1 = None
  \/ nth_error (API.topics event) 2 = None.

Definition MalformedEvent (malformed : API.Event -> Prop)
           (fetched : API.Fetched) : Prop :=
  exists events, fetched = API.Body (Some events) /\ Exists malformed events.

(** ** Order of the recent-transfers table *)

(** [t] carries a data field that reads as the amount [q]. *)
Definition hasAmount (t : UsdcTransfers.Transfer) (q : Qc) : Prop :=
  UsdcTransfers.amountOf t = Ok (Fin q).

Definition finiteAmount (t : UsdcTransfers.Transfer) : Prop :=
  exists q, hasAmount t q.

(** [a] may stand before [b] in a list sorted by amount, largest first. *)
Definition largerFirst (a b : UsdcTransfers.Transfer) : Prop :=
  exists x y, hasAmount a x /\ hasAmount b y /\ (y <= x)%Qc.

Definition amountIs (q : Qc) (t : UsdcTransfers.Transfer) : bool :=
  match UsdcTransfers.amountOf t with
  | Ok (Fin x) => Qc_eq_bool x q
  | _ => false
  end.

(** The comparator on transfers that all carry a data field. *)
Definition compareAmountPure (a b : UsdcTransfers.Transfer) : number :=
  match UsdcTransfers.amountOf a, UsdcTransfers.amountOf b with
  | Ok amountA, Ok amountB => sub amountB amountA
  | _, _ => NaN
  end.

(** ** The wallet aggregator *)

(** [event] moves [amount] from the wallet [from] to the wallet [to], as
    the aggregator decodes it. *)
Definition moves (event : API.Event) (from to : string) (amount : number)
  : Prop :=
  exists d t1 t2,
    API.data event = Some d
    /\ nth_error (API.topics event) 1 = Some t1
    /\ nth_error (API.topics event) 2 = Some t2
    /\ from = ("0x" ++ slice 26 t1)%string
    /\ to = ("0x" ++ slice 26 t2)%string
    /\ amount = div (parseInt16 (slice 2 d)) _1e6.

(** The running summary of a wallet: the one the map holds, or zero totals
    for a wallet not seen yet. *)
Definition summaryOf (addr : string) (walletMap : TopUsdcWallets.WalletMap)
  : TopUsdcWallets.WalletSummary :=
  match TopUsdcWallets.get addr walletMap with
  | Some wallet => wallet
  | None =>
      {| TopUsdcWallets.address := addr;
         TopUsdcWallets.totalAmount := ofZ 0;
         TopUsdcWallets.transferCount := 0;
         TopUsdcWallets.averageAmount := ofZ 0 |}
  end.

Definition finiteTotal (w : TopUsdcWallets.WalletSummary) : Prop :=
  exists q, TopUsdcWallets.totalAmount w = Fin q.

(** [a] has moved at least as much as [b]. *)
Definition atLeast (a b : TopUsdcWallets.WalletSummary) : Prop :=
  exists x y,
    TopUsdcWallets.totalAmount a = Fin x
    /\ TopUsdcWallets.totalAmount b = Fin y /\ (y <= x)%Qc.

(** [a] has moved more than [b]. *)
Definition moreThan (a b : TopUsdcWallets.WalletSummary) : Prop :=
  exists x y,
    TopUsdcWallets.totalAmount a = Fin x
    /\ TopUsdcWallets.totalAmount b = Fin y /\ (y < x)%Qc.

(** ** The per-minute charts *)

(** The entries of the count chart for the minute [label]. *)
Definition countBuckets (label : string)
           (chart : list UsdcVolumeChart.VolumeData)
  : list UsdcVolumeChart.VolumeData :=
  filter (fun v => String.eqb (UsdcVolumeChart.minute v) label) chart.

(** The entries of the volume chart for the minute [label]. *)
Definition volumeBuckets (label : string)
           (chart : list UsdcTransferChart.ChartData)
  : list UsdcTransferChart.ChartData :=
  filter (fun c => String.eqb (UsdcTransferChart.timestamp c) label) chart.

(** The amount the volume chart decodes from a data field: the value of
    the hex digits over 1,000,000, rounded to two decimals. *)
Definition chartAmount (d : string) : number :=
  NumberOfFixed2 (div (parseInt16 (slice 2 d)) _1e6).

(** The count the accumulator holds for a minute. *)
Fixpoint getCount (label : string) (acc : UsdcVolumeChart.Counts)
  : option nat :=
  match acc with
  | [] => None
  | (k, v) :: acc' =>
      if String.eqb k label then Some v else getCount label acc'
  end.

Definition countOr0 (label : string) (acc : UsdcVolumeChart.Counts) : nat :=
  match getCount label acc with
  | Some v => v
  | None => 0
  end.

(** The entry the accumulator holds for a minute. *)
Definition bucket (label : string) (acc : list UsdcTransferChart.ChartData)
  : option UsdcTransferChart.ChartData :=
  find (fun c => String.eqb (UsdcTransferChart.timestamp c) label) acc.

(** What the reduce makes of the entry of [curr]'s minute. *)
Definition merged (entry : option UsdcTransferChart.ChartData)
           (curr : UsdcTransferChart.ChartData)
  : UsdcTransferChart.ChartData :=
  match entry with
  | Some item =>
      {| UsdcTransferChart.timestamp := UsdcTransferChart.timestamp item;
         UsdcTransferChart.amount :=
           add (UsdcTransferChart.amount item)
               (UsdcTransferChart.amount curr) |}
  | None => curr
  end.

(** ** What a failed fetch leaves behind *)

(** The state of a view that caught [e]: the error message set, both
    loading flags cleared, the result set untouched. *)
Definition chartFailed (s : UsdcTransferChart.State) (e : exn)
  : UsdcTransferChart.State :=
  {| UsdcTransferChart.chartData := UsdcTransferChart.chartData s;
     UsdcTransferChart.loading := false;
     UsdcTransferChart.error := Some (message e);
     UsdcTransferChart.isRefreshing := false;
     UsdcTransferChart.console := UsdcTransferChart.console s ++ [e] |}.

Definition walletsFailed (s : TopUsdcWallets.State) (e : exn)
  : TopUsdcWallets.State :=
  {| TopUsdcWallets.walletStats := TopUsdcWallets.walletStats s;
     TopUsdcWallets.loading := false;
     TopUsdcWallets.isRefreshing := false;
     TopUsdcWallets.error := Some (message e);
     TopUsdcWallets.console := TopUsdcWallets.console s ++ [e] |}.

Definition countFailed (s : UsdcVolumeChart.State) (e : exn)
  : UsdcVolumeChart.State :=
  {| UsdcVolumeChart.volumeData := UsdcVolumeChart.volumeData s;
     UsdcVolumeChart.loading := false;
     UsdcVolumeChart.isRefreshing := false;
     UsdcVolumeChart.error := Some (message e);
     UsdcVolumeChart.console := UsdcVolumeChart.console s ++ [e] |}.

(** The recent-transfers table has no error message to set: the
    exception is printed and nothing else. *)
Definition tableFailed (s : UsdcTransfers.State) (e : exn)
  : UsdcTransfers.State :=
  {| UsdcTransfers.transfers := UsdcTransfers.transfers s;
     UsdcTransfers.loading := false;
     UsdcTransfers.isRefreshing := false;
     UsdcTransfers.console := UsdcTransfers.console s ++ [e] |}.

Definition NoTransferData : exn := Exn "No transfer data received".

(** The failures of the recent-transfers table: the call rejects, the
    body has no [data] array, or the comparator meets an event without
    data, which takes two events at least. *)
Definition tableFails (fetched : API.Fetched) : Prop :=
  NetworkError fetched
  \/ fetched = API.Body None
  \/ exists events,
      fetched = API.Body (Some events)
      /\ (2 <= List.length events)%nat /\ Exists lacksData events.

End Spec.

(* ===================================================================== *)
(** * Sample data *)
(* ===================================================================== *)

Module Sample.

Definition newest : API.Event :=
  transferEvent 1700000012
    "1111111111111111111111111111111111111111"
    "2222222222222222222222222222222222222222" "0F4240".

Definition older : API.Event :=
  transferEvent 1700000000
    "3333333333333333333333333333333333333333"
    "4444444444444444444444444444444444444444" "1E8480".


(** The batch of three: a wallet sends 10, sends 20 and receives 5. *)
Definition aSends10 : API.Event :=
  transferEvent 1700000036
    "aaaaaaaaaaaaaaaaaaaaaaaaaaaaaaaaaaaaaaaa"
    "b1b1b1b1b1b1b1b1b1b1b1b1b1b1b1b1b1b1b1b1" "989680".

Definition aSends20 : API.Event :=
  transferEvent 1700000024
    "aaaaaaaaaaaaaaaaaaaaaaaaaaaaaaaaaaaaaaaa"
    "b2b2b2b2b2b2b2b2b2b2b2b2b2b2b2b2b2b2b2b2" "1312d00".

Definition aReceives5 : API.Event :=
  transferEvent 1700000012
    "b3b3b3b3b3b3b3b3b3b3b3b3b3b3b3b3b3b3b3b3"
    "aaaaaaaaaaaaaaaaaaaaaaaaaaaaaaaaaaaaaaaa" "4c4b40".

(** A 40-digit address made of one byte repeated. *)
Definition walletOf (byte : string) : string :=
  String.concat "" (repeat byte 20).

(** Fourteen transfers along a chain of fifteen wallets, each twice as
    large as the one before. *)
Definition chain : list API.Event :=
  [ transferEvent 1700000168 (walletOf "01") (walletOf "02") "1";
    transferEvent 1700000156 (walletOf "02") (walletOf "03") "2";
    transferEvent 1700000144 (walletOf "03") (walletOf "04") "4";
    transferEvent 1700000132 (walletOf "04") (walletOf "05") "8";
    transferEvent 1700000120 (walletOf "05") (walletOf "06") "10";
    transferEvent 1700000108 (walletOf "06") (walletOf "07") "20";
    transferEvent 1700000096 (walletOf "07") (walletOf "08") "40";
    transferEvent 1700000084 (walletOf "08") (walletOf "09") "80";
    transferEvent 1700000072 (walletOf "09") (walletOf "0a") "100";
    transferEvent 1700000060 (walletOf "0a") (walletOf "0b") "200";
    transferEvent 1700000048 (walletOf "0b") (walletOf "0c") "400";
    transferEvent 1700000036 (walletOf "0c") (walletOf "0d") "800";
    transferEvent 1700000024 (walletOf "0d") (walletOf "0e") "1000";
    transferEvent 1700000012 (walletOf "0e") (walletOf "0f") "2000" ].

(** [newest] again, with other data and topics. *)
Definition newestOtherFields : API.Event :=
  {| API.block_timestamp := 1700000012;
     API.transaction_hash := "0x77";
     API.data := None;
     API.topics := [] |}.

(** A transfer one minute after [newest]. *)
Definition minuteLater : API.Event :=
  transferEvent 1700000072
    "6666666666666666666666666666666666666666"
    "7777777777777777777777777777777777777777" "2DC6C0".

End Sample.

(* ===================================================================== *)
(** * What the components render *)
(* ===================================================================== *)

(** The markup of a component, reduced to what it shows: which of its
    alternatives is on the page and with which texts.  Layout and styling
    are left out. *)

Module Markup.

(** [s.slice(0, n)] *)
Fixpoint sliceTo (n : nat) (s : string) : string :=
  match n, s with
  | O, _ => EmptyString
  | S _, EmptyString => EmptyString
  | S n', String c s' => String c (sliceTo n' s')
  end.

(** [s.slice(-n)]: the last [n] characters, or all of a shorter string. *)
Definition sliceLast (n : nat) (s : string) : string :=
  slice (String.length s - n) s.

(** Whether [error] counts as true in [error && ...] and [error ? ... :
    ...]: [null] and the empty string do not. *)
Definition truthy (error : option string) : bool :=
  match error with
  | None => false
  | Some EmptyString => false
  | Some _ => true
  end.

(** The locale's formats used by the markup. *)
Record Locale : Type := {
  (** [new Date(seconds * 1000).toLocaleString()] *)
  dateToLocaleString : Z -> string;
  (** [x.toLocaleString(undefined, { maximumFractionDigits: 2 })] *)
  numberToLocaleString : number -> string
}.

(** [{a}...{b}]: an address cut to its first 6 and last 4 characters. *)
Definition shortened (address : string) : string :=
  (sliceTo 6 address ++ "..." ++ sliceLast 4 address)%string.

End Markup.

(** ** src/components/UsdcTransfers.tsx, lines 70-132 *)

Module UsdcTransfersView.
Import API UsdcTransfers Markup.

Record Row : Type := {
  fromCell : string;
  toCell : string;
  amountCell : string;
  timeCell : string
}.

Inductive Body : Type :=
| Skeleton (rows : nat)
| Rows (rows : list Row).

(** [decodeAddress(transfer.topics[i])], cut for display; a missing
    topic reaches [topic.slice] as [undefined]. *)
Definition addressCell (i : nat) (transfer : Transfer) : result string :=
  match nth_error (topics transfer) i with
  | Some topic => Ok (shortened (decodeAddress topic))
  | None => Throw (TypeError "slice")
  end.

(** [decodeAmount(transfer.data)] *)
Definition amountText (host : Host) (transfer : Transfer) : result string :=
  match data transfer with
  | Some d => Ok (decodeAmount host d)
  | None => Throw (TypeError "slice")
  end.

(** One [TableRow] of the table body. *)
Definition renderRow (host : Host) (locale : Locale) (transfer : Transfer)
  : result Row :=
  rbind (addressCell 1 transfer) (fun from =>
  rbind (addressCell 2 transfer) (fun to =>
  rbind (amountText host transfer) (fun amount =>
  Ok {| fromCell := from; toCell := to; amountCell := amount;
        timeCell := dateToLocaleString locale (block_timestamp transfer) |}))).

(** The [TableBody]: five skeleton rows while loading, one row per stored
    transfer afterwards.  Nothing catches what a row throws. *)
Definition renderBody (host : Host) (locale : Locale) (s : State)
  : result Body :=
  if loading s then Ok (Skeleton 5)
  else rbind (mapR (renderRow host locale) (transfers s))
             (fun rows => Ok (Rows rows)).

(** [disabled={isRefreshing}] on the refresh button. *)
Definition refreshDisabled (s : State) : bool := isRefreshing s.

End UsdcTransfersView.

(** ** src/components/UsdcTransferChart.tsx, lines 102-163 *)

Module UsdcTransferChartView.
Import UsdcTransferChart Markup.

Inductive Content : Type :=
| LoadingText
| NoDataText
| LineChart (points : list ChartData).

(** [{error && <div>Error: {error}</div>}] in the header. *)
Definition errorShown (s : State) : option string :=
  if truthy (error s) then error s else None.

(** The card content: the loading text, the placeholder of an empty
    chart, or the chart. *)
Definition renderContent (s : State) : Content :=
  if loading s then LoadingText
  else match chartData s with
       | [] => NoDataText
       | _ => LineChart (chartData s)
       end.

Definition refreshDisabled (s : State) : bool := isRefreshing s.

End UsdcTransferChartView.

(** ** The markup of [TopUsdcWallets] *)

Module TopUsdcWalletsView.
Import TopUsdcWallets Markup.

Record Row : Type := {
  walletCell : string;
  totalCell : string;
  transfersCell : nat;
  averageCell : string
}.

Inductive Body : Type :=
| Skeleton (rows : nat)
| Rows (rows : list Row).

Definition renderRow (locale : Locale) (wallet : WalletSummary) : Row :=
  {| walletCell := shortened (address wallet);
     totalCell := numberToLocaleString locale (totalAmount wallet);
     transfersCell := transferCount wallet;
     averageCell := numberToLocaleString locale (averageAmount wallet) |}.

Definition renderBody (locale : Locale) (s : State) : Body :=
  if loading s then Skeleton 5
  else Rows (map (renderRow locale) (walletStats s)).

(** [{error && <div>Error: {error}</div>}] under the table. *)
Definition errorShown (s : State) : option string :=
  if truthy (error s) then error s else None.

Definition refreshDisabled (s : State) : bool := isRefreshing s.

End TopUsdcWalletsView.

(** ** The markup of [UsdcVolumeChart] *)

Module UsdcVolumeChartView.
Import UsdcVolumeChart Markup.

Inductive Content : Type :=
| Spinner
| ErrorText (error : string)
| BarChart (bars : list VolumeData) (interval : nat).

(** The card content: [loading ? spinner : error ? message : chart], the
    chart with [interval={Math.floor(volumeData.length / 10)}] on its
    axis. *)
Definition renderContent (s : State) : Content :=
  if loading s then Spinner
  else match error s with
       | Some (String c msg) => ErrorText (String c msg)
       | _ => BarChart (volumeData s) (List.length (volumeData s) / 10)%nat
       end.

Definition refreshDisabled (s : State) : bool := isRefreshing s.

End UsdcVolumeChartView.

(* ===================================================================== *)
(** * Notions for the properties of the whole components *)
(* ===================================================================== *)

Module Notions.
Import API.

(** The sum of a list of amounts. *)
Definition sumAmounts (l : list number) : number :=
  fold_right add (ofZ 0) l.

(** The local minute of the day of a Unix time: hours times 60 plus
    minutes. *)
Definition minuteOfDay (host : Host) (seconds : Z) : Z :=
  ((seconds + localOffset host seconds) / 3600) mod 24 * 60
  + ((seconds + localOffset host seconds) / 60) mod 60.

(** The bar [a] of the count chart is not later in the day than [b]. *)
Definition notLater (a b : UsdcVolumeChart.VolumeData) : Prop :=
  exists x y,
    UsdcVolumeChart.minutesSinceMidnight (UsdcVolumeChart.minute a) = ofZ x
    /\ UsdcVolumeChart.minutesSinceMidnight (UsdcVolumeChart.minute b) = ofZ y
    /\ x <= y.

(** The time the host's parser reads on a point of the volume chart. *)
Definition parsedTime (host : Host) (c : UsdcTransferChart.ChartData)
  : number :=
  dateParse host ("1970/01/01 " ++ UsdcTransferChart.timestamp c)%string.

(** The point [a] of the volume chart is not later than [b]. *)
Definition notAfter (host : Host) (a b : UsdcTransferChart.ChartData) : Prop :=
  exists x y,
    parsedTime host a = Fin x /\ parsedTime host b = Fin y /\ (x <= y)%Qc.

(** An event the wallet aggregator cannot decode. *)
Definition undecodable (event : Event) : Prop :=
  Spec.lacksData event \/ Spec.lacksAddress event.

(** The label the volume chart gives an event. *)
Definition volumeLabel (host : Host) (event : Event) : string :=
  toLocaleTimeString host (block_timestamp event).

(** The amount the volume chart reads on an event that has a data
    field. *)
Definition eventAmount (event : Event) : number :=
  match data event with
  | Some d => Spec.chartAmount d
  | None => NaN
  end.

(** The events of a batch that the volume chart puts under [label]. *)
Definition inMinute (host : Host) (label : string) (events : list Event)
  : list Event :=
  filter (fun e => String.eqb (volumeLabel host e) label) events.

(** The amount the wallet aggregator reads on an event that has a data
    field. *)
Definition movedAmount (event : Event) : number :=
  match data event with
  | Some d => div (parseInt16 (slice 2 d)) _1e6
  | None => NaN
  end.

(** A summary as the aggregator keeps it under the key [key]: its
    address is the key, it has counted a transfer at least, and its
    average is its total over its count. *)
Definition consistent (entry : string * TopUsdcWallets.WalletSummary)
  : Prop :=
  TopUsdcWallets.address (snd entry) = fst entry
  /\ (1 <= TopUsdcWallets.transferCount (snd entry))%nat
  /\ TopUsdcWallets.averageAmount (snd entry)
     = div (TopUsdcWallets.totalAmount (snd entry))
           (ofNat (TopUsdcWallets.transferCount (snd entry))).

(** The wallet [addr] has a total and an average that are not
    numbers. *)
Definition spoiled (addr : string) (m : TopUsdcWallets.WalletMap) : Prop :=
  exists w,
    TopUsdcWallets.get addr m = Some w
    /\ TopUsdcWallets.totalAmount w = NaN
    /\ TopUsdcWallets.averageAmount w = NaN.

(** The counts and the totals a wallet map holds. *)
Definition walletCounts (m : TopUsdcWallets.WalletMap) : list nat :=
  map TopUsdcWallets.transferCount (TopUsdcWallets.values m).

Definition walletTotals (m : TopUsdcWallets.WalletMap) : list number :=
  map TopUsdcWallets.totalAmount (TopUsdcWallets.values m).

End Notions.

(** ** More sample data *)

Module Sample2.

(** Three transfers of one morning, at 09:05, 09:01 and 08:59 UTC,
    newest first. *)
Definition morning : list API.Event :=
  [ transferEvent 32700 (Sample.walletOf "01") (Sample.walletOf "02") "0F4240";
    transferEvent 32460 (Sample.walletOf "02") (Sample.walletOf "03") "1E8480";
    transferEvent 32340 (Sample.walletOf "03") (Sample.walletOf "01") "2DC6C0" ].

(** The first transfer of [morning], one day later. *)
Definition nextDay : API.Event :=
  transferEvent (32700 + 86400) (Sample.walletOf "04") (Sample.walletOf "05")
                "0F4240".

(** A transfer whose topics were cut off after the signature. *)
Definition noTopics : API.Event :=
  {| API.block_timestamp := 1700000012;
     API.transaction_hash := "0x78";
     API.data := Some "0x0F4240";
     API.topics :=
       ["0xddf252ad1be2c89b69c2b068fc378daa952ba7f163c4a11628f55a4df523b3ef"] |}.

(** A transfer whose data field holds no hex digit. *)
Definition noDigits : API.Event :=
  {| API.block_timestamp := 1700000012;
     API.transaction_hash := "0x79";
     API.data := Some "0x";
     API.topics :=
       ["0xddf252ad1be2c89b69c2b068fc378daa952ba7f163c4a11628f55a4df523b3ef";
        ("0x000000000000000000000000" ++ Sample.walletOf "08")%string;
        ("0x000000000000000000000000" ++ Sample.walletOf "09")%string] |}.

(** A locale that writes a date as its Unix time and a number as
    [toFixed(2)] does. *)
Definition plainLocale : Markup.Locale :=
  {| Markup.dateToLocaleString := fun t => StringOfInt (Some t);
     Markup.numberToLocaleString := toFixed2 utc |}.

End Sample2.

(* ===================================================================== *)
(** * Facts about the primitives *)
(* ===================================================================== *)

Module JSFacts.

Lemma slice_app (p s : string) :
  slice (String.length p) (p ++ s)%string = s.
Proof.
  induction p as [|c p IH]; simpl.
  - now destruct s.
  - exact IH.
Qed.

Lemma slice_length (n : nat) (s : string) :
  String.length (slice n s) = (String.length s - n)%nat.
Proof.
  revert s; induction n as [|n IH]; intros s; simpl.
  - lia.
  - destruct s as [|c s]; simpl; [reflexivity | apply IH].
Qed.

Lemma slice_substring (n : nat) (s : string) :
  slice n s = substring n (String.length s - n) s.
Proof.
  revert s; induction n as [|n IH]; intros s.
  - simpl. rewrite Nat.sub_0_r.
    induction s as [|c s IHs]; simpl; [reflexivity | now rewrite <- IHs].
  - destruct s as [|c s]; simpl; [reflexivity | apply IH].
Qed.

Lemma substring_split (n : nat) (s : string) :
  (n <= String.length s)%nat ->
  s = (substring 0 n s ++ substring n (String.length s - n) s)%string.
Proof.
  revert s; induction n as [|n IH]; intros s Hn.
  - rewrite <- slice_substring. simpl. now destruct s.
  - destruct s as [|c s]; simpl in *; [lia|].
    f_equal. apply IH. lia.
Qed.

(** ** Arithmetic of [number] *)

Lemma Qc_sub_compare (x y : Qc) : ((y - x) ?= 0)%Qc = (y ?= x)%Qc.
Proof.
  destruct (Qccompare y x) eqn:E.
  - apply Qceq_alt in E. subst y.
    replace (x - x)%Qc with 0%Qc by ring. reflexivity.
  - apply Qclt_alt in E. apply Qclt_alt.
    apply Qclt_minus_iff. apply Qclt_minus_iff in E.
    replace (0 + - (y - x))%Qc with (x + - y)%Qc by ring. exact E.
  - apply Qcgt_alt in E. apply Qcgt_alt.
    apply Qclt_minus_iff in E.
    replace (y - x)%Qc with (y + - x)%Qc by ring. exact E.
Qed.

Lemma sign_sub (x y : Qc) : sign (sub (Fin y) (Fin x)) = (y ?= x)%Qc.
Proof. simpl. apply Qc_sub_compare. Qed.


End JSFacts.

(* ===================================================================== *)
(** * Facts about [sort] *)
(* ===================================================================== *)

Module SortFacts.

Lemma filter_perm (A : Type) (f : A -> bool) (l l' : list A) :
  Permutation l l' -> Permutation (filter f l) (filter f l').
Proof.
  induction 1 as [|x l l' H IH|x y l|l l' l'' H1 IH1 H2 IH2]; simpl.
  - apply perm_nil.
  - destruct (f x); [now apply perm_skip | exact IH].
  - destruct (f x), (f y); try apply Permutation_refl. apply perm_swap.
  - eapply perm_trans; eauto.
Qed.

(** A class with a single member keeps it through a permutation. *)
Lemma filter_perm_single (A : Type) (f : A -> bool) (l l' : list A) (x : A) :
  Permutation l l' -> filter f l = [x] -> filter f l' = [x].
Proof.
  intros Hp Hf. apply Permutation_length_1_inv.
  rewrite <- Hf. now apply filter_perm.
Qed.

Section Pure.
Variable A : Type.

Variable compareFn : A -> A -> number.

Lemma insert_perm (x : A) (l : list A) :
  Permutation (x :: l) (insert compareFn x l).
Proof.
  induction l as [|y l IH]; simpl.
  - apply Permutation_refl.
  - destruct (sign (compareFn x y)); try apply Permutation_refl.
    eapply perm_trans; [apply perm_swap|]. now apply perm_skip.
Qed.

Lemma sort_perm (l : list A) : Permutation l (sort compareFn l).
Proof.
  induction l as [|x l IH]; simpl.
  - apply perm_nil.
  - eapply perm_trans; [apply perm_skip, IH | apply insert_perm].
Qed.

Lemma sort_length (l : list A) :
  List.length (sort compareFn l) = List.length l.
Proof. symmetry. apply Permutation_length, sort_perm. Qed.

Lemma sort_In (l : list A) (x : A) : In x (sort compareFn l) <-> In x l.
Proof.
  split; apply Permutation_in;
    [apply Permutation_sym|]; apply sort_perm.
Qed.

(** *** Order of the result

    [before x y] reads: [x] may stand before [y].  The comparator decides
    it on the elements that satisfy [ok]. *)
Variable ok : A -> Prop.

Variable before : A -> A -> Prop.

Hypothesis before_trans :
  forall x y z, before x y -> before y z -> before x z.

Hypothesis keep_before :
  forall x y, ok x -> ok y -> sign (compareFn x y) <> Gt -> before x y.

Hypothesis swap_before :
  forall x y, ok x -> ok y -> sign (compareFn x y) = Gt -> before y x.

Lemma insert_sorted (x : A) (l : list A) :
  ok x -> Forall ok l ->
  StronglySorted before l -> StronglySorted before (insert compareFn x l).
Proof.
  intros Hx Hl Hs. induction Hs as [|y l Hs IH Hy]; simpl.
  - constructor; constructor.
  - inversion Hl as [|? ? Hoky Hokl]; subst.
    destruct (sign (compareFn x y)) eqn:E.
    + constructor; [now constructor|].
      assert (Hxy : before x y) by (apply keep_before; congruence).
      constructor; [exact Hxy|].
      eapply Forall_impl; [|exact Hy]. intros z Hz. eauto.
    + constructor; [now constructor|].
      assert (Hxy : before x y) by (apply keep_before; congruence).
      constructor; [exact Hxy|].
      eapply Forall_impl; [|exact Hy]. intros z Hz. eauto.
    + constructor; [now apply IH|].
      apply Forall_forall. intros z Hz.
      apply (Permutation_in _ (Permutation_sym (insert_perm x l))) in Hz.
      destruct Hz as [<-|Hz].
      * now apply swap_before.
      * rewrite Forall_forall in Hy. now apply Hy.
Qed.

Lemma sort_ok (l : list A) : Forall ok l -> Forall ok (sort compareFn l).
Proof.
  intros H. apply Forall_forall. intros x Hx.
  rewrite Forall_forall in H. apply H. now apply sort_In.
Qed.

Lemma sort_sorted (l : list A) :
  Forall ok l -> StronglySorted before (sort compareFn l).
Proof.
  induction l as [|x l IH]; intros H; simpl.
  - constructor.
  - inversion H; subst. apply insert_sorted; auto using sort_ok.
Qed.

(** *** Stability

    A class [f] of elements that the comparator never swaps with one
    another keeps its order. *)
Variable f : A -> bool.

Hypothesis never_swapped :
  forall x y, ok x -> ok y -> sign (compareFn x y) = Gt ->
              f x = true -> f y = false.

Lemma insert_filter (x : A) (l : list A) :
  ok x -> Forall ok l ->
  filter f (insert compareFn x l) = filter f (x :: l).
Proof.
  intros Hx Hl. induction Hl as [|y l Hy Hl IH]; [reflexivity|].
  simpl. destruct (sign (compareFn x y)) eqn:E; try reflexivity.
  simpl. rewrite IH. simpl.
  destruct (f x) eqn:Fx; [|reflexivity].
  now rewrite (never_swapped Hx Hy E Fx).
Qed.

Lemma sort_filter (l : list A) :
  Forall ok l -> filter f (sort compareFn l) = filter f l.
Proof.
  induction l as [|x l IH]; intros H; [reflexivity|].
  inversion H; subst. simpl sort.
  rewrite insert_filter; auto using sort_ok.
  simpl. now rewrite IH.
Qed.
End Pure.

Section Throwing.
Variable A : Type.

Variable compareR : A -> A -> result number.

Lemma insertR_perm (x : A) (l r : list A) :
  insertR compareR x l = Ok r -> Permutation (x :: l) r.
Proof.
  revert r; induction l as [|y l IH]; simpl; intros r H.
  - injection H as <-. apply Permutation_refl.
  - destruct (compareR x y) as [v|e]; simpl in H; [|discriminate].
    destruct (sign v);
      try (injection H as <-; apply Permutation_refl).
    destruct (insertR compareR x l) as [r'|e]; simpl in H; [|discriminate].
    injection H as <-.
    eapply perm_trans; [apply perm_swap|]. apply perm_skip. now apply IH.
Qed.

Lemma sortR_perm (l r : list A) :
  sortR compareR l = Ok r -> Permutation l r.
Proof.
  revert r; induction l as [|x l IH]; simpl; intros r H.
  - injection H as <-. apply perm_nil.
  - destruct (sortR compareR l) as [s|e]; simpl in H; [|discriminate].
    eapply perm_trans; [apply perm_skip, IH; reflexivity|].
    now apply insertR_perm.
Qed.

(** Where the comparator does not throw, the two sorts agree. *)
Variable compareFn : A -> A -> number.

Variable ok : A -> Prop.

Hypothesis compareR_ok :
  forall x y, ok x -> ok y -> compareR x y = Ok (compareFn x y).

Lemma insertR_insert (x : A) (l : list A) :
  ok x -> Forall ok l ->
  insertR compareR x l = Ok (insert compareFn x l).
Proof.
  intros Hx Hl. induction Hl as [|y l Hy Hl IH]; [reflexivity|].
  simpl. rewrite (compareR_ok Hx Hy). simpl.
  destruct (sign (compareFn x y)); try reflexivity.
  now rewrite IH.
Qed.

Lemma sortR_sort (l : list A) :
  Forall ok l -> sortR compareR l = Ok (sort compareFn l).
Proof.
  induction l as [|x l IH]; intros H; [reflexivity|].
  inversion H; subst. simpl. rewrite IH by assumption. simpl.
  apply insertR_insert; auto using sort_ok.
Qed.
End Throwing.

End SortFacts.

(** ** [parseInt] and [toFixed] on hex strings *)

Module ParseFacts.
Import JSFacts Spec.

Lemma hexDigit_range (c : ascii) (d : Z) : hexDigit c = Some d -> 0 <= d < 16.
Proof.
  unfold hexDigit. intros H.
  repeat match type of H with
         | (if ?b then _ else _) = _ =>
             let E := fresh "E" in
             destruct b eqn:E;
             [rewrite andb_true_iff, !Z.leb_le in E; injection H as <-; lia|]
         end.
  discriminate.
Qed.

Lemma hexDigit_plain (c : ascii) (d : Z) :
  hexDigit c = Some d ->
  isWhiteSpace c = false /\ c <> "-"%char /\ c <> "+"%char
  /\ c <> "x"%char /\ c <> "X"%char.
Proof.
  destruct c as [[] [] [] [] [] [] [] []]; vm_compute; intros H;
    try discriminate; repeat split; discriminate.
Qed.

Lemma hexPrefix_value (s : string) (acc : Z) (seen : bool) :
  isHexDigits s = true -> (seen = true \/ s <> "") ->
  hexPrefix acc seen s = Some (acc * 16 ^ Z.of_nat (String.length s) + hexValue s).
Proof.
  revert acc seen; induction s as [|c s IH]; intros acc seen Hs Hne.
  - destruct Hne as [->|Hne]; [|congruence]. simpl. f_equal. lia.
  - simpl in Hs. cbn [hexPrefix hexValue String.length]. unfold digitValue.
    destruct (hexDigit c) as [d|]; [|discriminate].
    rewrite IH by auto. f_equal.
    rewrite Nat2Z.inj_succ, Z.pow_succ_r by lia. ring.
Qed.

Lemma hexValue_nonneg (s : string) : 0 <= hexValue s.
Proof.
  induction s as [|c s IH]; simpl; [lia|].
  unfold digitValue. destruct (hexDigit c) as [d|] eqn:E; [|lia].
  apply hexDigit_range in E. 
  assert (0 <= 16 ^ Z.of_nat (String.length s)) by (apply Z.pow_nonneg; lia).
  nia.
Qed.

Lemma parseInt16_hex (hex : string) :
  hex <> "" -> isHexDigits hex = true -> parseInt16 hex = ofZ (hexValue hex).
Proof.
  intros Hne Hhex. unfold parseInt16.
  destruct hex as [|c hex]; [congruence|].
  pose proof Hhex as Hc. simpl in Hc.
  destruct (hexDigit c) as [d|] eqn:Ec; [|discriminate].
  destruct (hexDigit_plain _ Ec) as (Hw & Hm & Hp & _).
  simpl trimStart. rewrite Hw.
  assert (Hsign : stripSign (String c hex) = (false, String c hex)).
  { unfold stripSign. 
    destruct (Ascii.eqb_spec c "-"); [congruence|].
    destruct (Ascii.eqb_spec c "+"); [congruence|].
    destruct c as [[] [] [] [] [] [] [] []]; try reflexivity; congruence. }
  rewrite Hsign.
  assert (Hx : strip0x (String c hex) = String c hex).
  { destruct hex as [|c' hex]; [now destruct c as [[] [] [] [] [] [] [] []]|].
    simpl in Hc. destruct (hexDigit c') as [d'|] eqn:Ec'; [|discriminate].
    destruct (hexDigit_plain _ Ec') as (_ & _ & _ & Hx1 & Hx2).
    unfold strip0x.
    destruct c as [[] [] [] [] [] [] [] []]; try reflexivity;
    destruct c' as [[] [] [] [] [] [] [] []]; try reflexivity; congruence. }
  rewrite Hx. rewrite hexPrefix_value by (auto; right; discriminate).
  f_equal.
Qed.

Lemma this_micro (v : Z) :
  (this (Q2Qc (inject_Z v) / Q2Qc (inject_Z 1000000))%Qc == v # 1000000)%Q.
Proof.
  unfold Qcdiv, Qcmult, Qcinv, Q2Qc; cbn [this].
  rewrite !Qred_correct.
  unfold Qeq, Qmult, Qinv, inject_Z; simpl. lia.
Qed.

Lemma Qcabs_micro (v : Z) :
  0 <= v ->
  (this (Qcabs (Q2Qc (inject_Z v) / Q2Qc (inject_Z 1000000))%Qc)
   == v # 1000000)%Q.
Proof.
  intros Hv. unfold Qcabs, Q2Qc at 1; cbn [this].
  rewrite Qred_correct, this_micro.
  apply Qabs_pos. unfold Qle; simpl. lia.
Qed.

Lemma nearestHundredth_micro (v : Z) :
  0 <= v ->
  nearestHundredth (Qcabs (Q2Qc (inject_Z v) / Q2Qc (inject_Z 1000000))%Qc)
  = (v + 5000) / 10000.
Proof.
  intros Hv. unfold nearestHundredth.
  unfold Qcplus, Qcmult, Q2Qc at 1 2 3 4; cbn [this].
  rewrite !Qred_correct, (Qcabs_micro Hv).
  assert (E : ((v # 1000000) * inject_Z 100 + (1 # 2)
               == (v + 5000) # 10000)%Q).
  { unfold Qeq, Qplus, Qmult, inject_Z; simpl. lia. }
  rewrite E. reflexivity.
Qed.

Lemma toFixed2_micro (host : Host) (v : Z) :
  0 <= v < 10 ^ 27 ->
  toFixed2 host (div (ofZ v) _1e6) = fixed2 ((v + 5000) / 10000).
Proof.
  intros [Hv Hlt]. unfold _1e6, ofZ, div.
  change (Q2Qc (inject_Z 1000000) ?= 0)%Qc with Gt. cbn iota.
  unfold toFixed2.
  set (q := (Q2Qc (inject_Z v) / Q2Qc (inject_Z 1000000))%Qc).
  assert (Hsmall : (Qcabs q ?= _1e21)%Qc = Lt).
  { unfold Qccompare. rewrite <- Qlt_alt. unfold q. rewrite (Qcabs_micro Hv).
    unfold _1e21, Q2Qc; cbn [this]. rewrite Qred_correct.
    change (10 ^ 21) with 1000000000000000000000.
    change (10 ^ 27) with 1000000000000000000000000000 in Hlt.
    unfold Qlt, inject_Z; cbn [Qnum Qden]. lia. }
  rewrite Hsmall.
  assert (Hpos : (q ?= 0)%Qc <> Lt).
  { unfold Qccompare. rewrite <- Qlt_alt. unfold q. rewrite this_micro.
    unfold Qlt; cbn [Qnum Qden this]. simpl. lia. }
  unfold q at 2. rewrite (nearestHundredth_micro Hv).
  destruct (q ?= 0)%Qc; try reflexivity. congruence.
Qed.
End ParseFacts.

(* ===================================================================== *)
(** * The recent-transfers table *)
(* ===================================================================== *)

Module UsdcTransfersFacts.
Import API UsdcTransfers JSFacts ParseFacts Spec Sample.

(** ** Decoding *)

Lemma isHexDigits_slice (n : nat) (s : string) :
  isHexDigits s = true -> isHexDigits (slice n s) = true.
Proof.
  revert s; induction n as [|n IH]; intros s H; [exact H|].
  destruct s as [|c s]; [reflexivity|].
  simpl in *. destruct (hexDigit c); [auto | discriminate].
Qed.

Lemma slice_slice (n m : nat) (s : string) :
  slice n (slice m s) = slice (m + n) s.
Proof.
  revert s; induction m as [|m IH]; intros s; [reflexivity|].
  destruct s as [|c s]; simpl; [now destruct n | apply IH].
Qed.

(** C8. Address decode drops the first 26 characters of a topic and
    prepends [0x]: for a 66-character topic the result is [0x] followed by
    the topic's last 40 characters, which are hex digits when the topic's
    64 characters after its prefix are.  The wallet aggregator decodes the
    two addresses of an event in the same way. *)
Theorem decodeAddress_last40 (topic : string) :
  String.length topic = 66%nat ->
  decodeAddress topic = ("0x" ++ substring 26 40 topic)%string
  /\ topic = (substring 0 26 topic ++ substring 26 40 topic)%string
  /\ String.length (substring 26 40 topic) = 40%nat
  /\ (isHexDigits (slice 2 topic) = true ->
      isHexDigits (substring 26 40 topic) = true)
  /\ (forall (event : Event) (i : nat),
        nth_error (topics event) i = Some topic ->
        topicSlice26 i event = Ok (substring 26 40 topic)).
Proof.
  intros Hlen.
  assert (Hs : slice 26 topic = substring 26 40 topic).
  { rewrite slice_substring, Hlen. reflexivity. }
  repeat split.
  - unfold decodeAddress. now rewrite Hs.
  - pose proof (@substring_split 26 topic) as H.
    rewrite Hlen in H. apply H. lia.
  - rewrite <- Hs, slice_length, Hlen. reflexivity.
  - intros Hhex. rewrite <- Hs.
    change 26%nat with (2 + 24)%nat. rewrite <- slice_slice.
    now apply isHexDigits_slice.
  - intros event i Hi. unfold topicSlice26. now rewrite Hi, Hs.
Qed.

Lemma decodeAddress_last40_witness :
  decodeAddress
    "0x000000000000000000000000a0b86991c6218b36c1d19d4a2e9eb0ce3606eb48"
  = "0xa0b86991c6218b36c1d19d4a2e9eb0ce3606eb48".
Proof.
  exact (proj1 (decodeAddress_last40
    "0x000000000000000000000000a0b86991c6218b36c1d19d4a2e9eb0ce3606eb48"
    eq_refl)).
Defined.

(** C7. Amount decode strips the 2-character prefix of the data field,
    reads the rest as a base-16 unsigned integer and divides it by
    1,000,000, written with two decimals, the nearest hundredth; in
    particular [0x0F4240] decodes to [1.00].  The statement covers the
    values a double holds exactly and leaves out the amounts that lie
    halfway between two hundredths, where the double nearest to the
    quotient decides. *)
Theorem decodeAmount_hex (host : Host) :
  (forall prefix hex : string,
      String.length prefix = 2%nat ->
      hex <> "" ->
      isHexDigits hex = true ->
      hexValue hex < 2 ^ 53 ->
      hexValue hex mod 10000 <> 5000 ->
      decodeAmount host (prefix ++ hex)
      = toFixed2 host (div (ofZ (hexValue hex)) _1e6)
      /\ decodeAmount host (prefix ++ hex)
         = fixed2 ((hexValue hex + 5000) / 10000))
  /\ decodeAmount host "0x0F4240" = "1.00".
Proof.
  split; [|reflexivity].
  intros prefix hex Hp Hne Hhex Hlt _.
  assert (E : decodeAmount host (prefix ++ hex)
              = toFixed2 host (div (ofZ (hexValue hex)) _1e6)).
  { unfold decodeAmount. rewrite <- Hp, slice_app.
    now rewrite parseInt16_hex. }
  split; [exact E|].
  rewrite E. apply toFixed2_micro.
  split; [apply hexValue_nonneg|].
  eapply Z.lt_trans; [exact Hlt | reflexivity].
Qed.

Lemma decodeAmount_hex_witness :
  decodeAmount utc
    "0x00000000000000000000000000000000000000000000000000000000004c4b3f"
  = "5.00".
Proof.
  refine (eq_trans
    (proj2 (proj1 (decodeAmount_hex utc) "0x"
      "00000000000000000000000000000000000000000000000000000000004c4b3f"
      eq_refl _ eq_refl eq_refl _)) eq_refl); discriminate.
Defined.

(** ** The fetch function *)

Lemma getUsdcTransfers_ok (body : option (list Event)) (r : list Transfer)
      (s : State) :
  sortTransfers body = Ok r ->
  getUsdcTransfers (Body body) s
  = (Ok tt, {| transfers := r; loading := false; isRefreshing := false;
               console := console s |}).
Proof.
  intros H. unfold getUsdcTransfers, Effect.tryCatchFinally, Effect.bind,
    Effect.await, Effect.ret, Effect.lift. simpl. now rewrite H.
Qed.

Lemma getUsdcTransfers_throw (body : option (list Event)) (e : exn)
      (s : State) :
  sortTransfers body = Throw e ->
  getUsdcTransfers (Body body) s
  = (Ok tt, {| transfers := transfers s; loading := false;
               isRefreshing := false; console := console s ++ [e] |}).
Proof.
  intros H. unfold getUsdcTransfers, Effect.tryCatchFinally, Effect.bind,
    Effect.await, Effect.ret, Effect.lift. simpl. now rewrite H.
Qed.

Lemma getUsdcTransfers_rejected (e : exn) (s : State) :
  getUsdcTransfers (Rejected e) s
  = (Ok tt, {| transfers := transfers s; loading := false;
               isRefreshing := false; console := console s ++ [e] |}).
Proof. reflexivity. Qed.

(** ** The order of the stored list *)

Lemma compareAmount_pure (a b : Transfer) :
  finiteAmount a -> finiteAmount b ->
  compareAmount a b = Ok (compareAmountPure a b).
Proof.
  intros [x Hx] [y Hy]. unfold compareAmount, compareAmountPure.
  unfold hasAmount in *. now rewrite Hx, Hy.
Qed.

Lemma compareAmountPure_sign (a b : Transfer) (x y : Qc) :
  hasAmount a x -> hasAmount b y ->
  sign (compareAmountPure a b) = (y ?= x)%Qc.
Proof.
  unfold hasAmount, compareAmountPure. intros -> ->. apply sign_sub.
Qed.

Lemma largerFirst_trans (a b c : Transfer) :
  largerFirst a b -> largerFirst b c -> largerFirst a c.
Proof.
  intros (x & y & Hx & Hy & Hxy) (y' & z & Hy' & Hz & Hyz).
  unfold hasAmount in *. rewrite Hy in Hy'. injection Hy' as <-.
  exists x, z. repeat split; auto. eapply Qcle_trans; eauto.
Qed.

Lemma sortTransfers_finite (events : list Transfer) :
  Forall finiteAmount events ->
  sortTransfers (Some events) = Ok (sort compareAmountPure events).
Proof.
  intros H. simpl.
  apply SortFacts.sortR_sort with (ok := finiteAmount); auto.
  intros x y. apply compareAmount_pure.
Qed.

(** C1, as the code has it.  The list stored for display is the page of
    the response sorted again by decoded amount, largest first: a
    permutation of the response in which no transfer stands before a
    larger one, transfers of one same amount keeping the order of the
    response (newest first). *)
Theorem getUsdcTransfers_sorted_by_amount (events : list Transfer) (s : State) :
  Forall finiteAmount events ->
  let stored := transfers (snd (getUsdcTransfers (Body (Some events)) s)) in
  Permutation events stored
  /\ StronglySorted largerFirst stored
  /\ forall q, filter (amountIs q) stored = filter (amountIs q) events.
Proof.
  intros Hfin.
  rewrite (getUsdcTransfers_ok _ s (sortTransfers_finite Hfin)). simpl.
  split; [apply SortFacts.sort_perm|]. split.
  - apply (@SortFacts.sort_sorted _ compareAmountPure finiteAmount
             largerFirst largerFirst_trans); [ | | exact Hfin].
    + intros a b [x Hx] [y Hy] Hs.
      rewrite (compareAmountPure_sign Hx Hy) in Hs.
      exists x, y. split; [exact Hx|]. split; [exact Hy|]. exact Hs.
    + intros a b [x Hx] [y Hy] Hs.
      rewrite (compareAmountPure_sign Hx Hy) in Hs.
      exists y, x. split; [exact Hy|]. split; [exact Hx|].
      apply Qclt_le_weak. now apply Qcgt_alt in Hs.
  - intros q.
    apply (@SortFacts.sort_filter _ compareAmountPure finiteAmount);
      [|exact Hfin].
    intros a b [x Hx] [y Hy] Hs Ha.
    rewrite (compareAmountPure_sign Hx Hy) in Hs.
    unfold amountIs, hasAmount in *. rewrite Hx in Ha. rewrite Hy.
    apply Qc_eq_bool_correct in Ha. subst x.
    unfold Qc_eq_bool. destruct (Qc_eq_dec y q) as [->|]; [|reflexivity].
    apply Qcgt_alt in Hs. now apply Qclt_not_eq in Hs.
Qed.

Lemma getUsdcTransfers_sorted_by_amount_witness :
  Forall finiteAmount [newest; older]
  /\ StronglySorted largerFirst
       (transfers (snd (getUsdcTransfers (Body (Some [newest; older]))
                                         initial))).
Proof.
  assert (H : Forall finiteAmount [newest; older]).
  { repeat constructor; eexists; reflexivity. }
  split; [exact H|].
  exact (proj1 (proj2 (getUsdcTransfers_sorted_by_amount initial H))).
Defined.

(** C1 fails as stated: a page of two transfers in which the newer one
    moves the smaller amount is stored in the opposite order. *)
Lemma getUsdcTransfers_reorders :
  transfers (snd (getUsdcTransfers (Body (Some [newest; older])) initial))
  = [older; newest]
  /\ transfers (snd (getUsdcTransfers (Body (Some [newest; older])) initial))
     <> [newest; older].
Proof.
  assert (E : transfers
                (snd (getUsdcTransfers (Body (Some [newest; older])) initial))
              = [older; newest]) by reflexivity.
  rewrite E. split; [reflexivity | discriminate].
Qed.

(** ** When the sort throws *)

Lemma amountOf_lacksData (t : Transfer) :
  lacksData t -> amountOf t = Throw (TypeError "slice").
Proof. unfold lacksData, amountOf, dataSlice2. now intros ->. Qed.

Lemma amountOf_throw (t : Transfer) (e : exn) :
  amountOf t = Throw e -> e = TypeError "slice".
Proof.
  unfold amountOf, dataSlice2. destruct (data t); simpl; congruence.
Qed.

Lemma compareAmount_throw (a b : Transfer) (e : exn) :
  compareAmount a b = Throw e -> e = TypeError "slice".
Proof.
  unfold compareAmount.
  destruct (amountOf a) eqn:Ea; simpl; [|intros [= <-]; eauto using amountOf_throw].
  destruct (amountOf b) eqn:Eb; simpl; [discriminate|].
  intros [= <-]; eauto using amountOf_throw.
Qed.

Lemma compareAmount_lacksData (a b : Transfer) :
  lacksData a \/ lacksData b -> compareAmount a b = Throw (TypeError "slice").
Proof.
  intros H. destruct (compareAmount a b) as [v|e] eqn:E.
  - exfalso. unfold compareAmount in E.
    destruct H as [H|H]; apply amountOf_lacksData in H.
    + rewrite H in E. discriminate.
    + destruct (amountOf a); simpl in E; [|discriminate].
      rewrite H in E. discriminate.
  - f_equal. eauto using compareAmount_throw.
Qed.

Lemma insertR_throw (x : Transfer) (l : list Transfer) (e : exn) :
  insertR compareAmount x l = Throw e -> e = TypeError "slice".
Proof.
  induction l as [|y l IH]; simpl; [discriminate|].
  destruct (compareAmount x y) as [v|e'] eqn:E; simpl.
  - destruct (sign v); try discriminate.
    destruct (insertR compareAmount x l); simpl; [discriminate|].
    intros [= <-]. now apply IH.
  - intros [= <-]. eauto using compareAmount_throw.
Qed.

Lemma sortR_throw (l : list Transfer) (e : exn) :
  sortR compareAmount l = Throw e -> e = TypeError "slice".
Proof.
  induction l as [|x l IH]; simpl; [discriminate|].
  destruct (sortR compareAmount l) as [r|e']; simpl.
  - apply insertR_throw.
  - intros [= <-]. now apply IH.
Qed.

(** A page of two transfers or more, one of which lacks its data field,
    makes the comparator throw. *)
Lemma sortR_lacksData (l : list Transfer) :
  (2 <= List.length l)%nat -> Exists lacksData l ->
  sortR compareAmount l = Throw (TypeError "slice").
Proof.
  intros Hlen Hex.
  destruct (sortR compareAmount l) as [r|e] eqn:E;
    [exfalso | f_equal; eauto using sortR_throw].
  revert r Hlen Hex E. induction l as [|x l IH]; intros r Hlen Hex E.
  - simpl in Hlen. lia.
  - simpl in E. destruct (sortR compareAmount l) as [r'|e] eqn:E';
      simpl in E; [|discriminate].
    pose proof (SortFacts.sortR_perm _ _ E') as Hperm.
    destruct r' as [|y r'].
    { apply Permutation_length in Hperm. simpl in *. lia. }
    simpl in E.
    inversion Hex as [? ? Hx | ? ? Hl]; subst.
    + rewrite compareAmount_lacksData in E by auto. discriminate.
    + destruct l as [|y0 [|y1 l]].
      * inversion Hl.
      * apply Permutation_length_1_inv in Hperm. injection Hperm as -> ->.
        inversion Hl as [? ? Hy | ? ? Hn]; subst; [|inversion Hn].
        rewrite compareAmount_lacksData in E by auto. discriminate.
      * eapply (IH (y :: r')); simpl; auto; lia.
Qed.
End UsdcTransfersFacts.

(* ===================================================================== *)
(** * The top-wallets table *)
(* ===================================================================== *)

Module TopUsdcWalletsFacts.
Import API TopUsdcWallets JSFacts Spec Sample.

(** ** The map *)

Lemma has_get (key : string) (m : WalletMap) :
  has key m = match get key m with Some _ => true | None => false end.
Proof.
  induction m as [|[k w] m IH]; simpl; [reflexivity|].
  now destruct (String.eqb k key).
Qed.

Lemma get_set_same (key : string) (w : WalletSummary) (m : WalletMap) :
  get key (set key w m) = Some w.
Proof.
  induction m as [|[k w'] m IH]; simpl.
  - now rewrite String.eqb_refl.
  - destruct (String.eqb k key) eqn:E; simpl; rewrite E; auto.
Qed.

Lemma get_set_other (key other : string) (w : WalletSummary) (m : WalletMap) :
  other <> key -> get other (set key w m) = get other m.
Proof.
  intros Hne. induction m as [|[k w'] m IH]; simpl.
  - destruct (String.eqb_spec key other); congruence.
  - destruct (String.eqb_spec k key) as [->|Hk]; simpl.
    + destruct (String.eqb_spec key other); congruence.
    + destruct (String.eqb k other); auto.
Qed.

Lemma updateWallet_same (addr : string) (amount : number) (m : WalletMap) :
  get addr (updateWallet addr amount m)
  = Some (credit amount (summaryOf addr m)).
Proof.
  unfold updateWallet, summaryOf. rewrite has_get.
  destruct (get addr m) as [w|] eqn:E; simpl.
  - rewrite E. apply get_set_same.
  - rewrite get_set_same. apply get_set_same.
Qed.

Lemma updateWallet_other (addr other : string) (amount : number)
      (m : WalletMap) :
  other <> addr -> get other (updateWallet addr amount m) = get other m.
Proof.
  intros Hne. unfold updateWallet. rewrite has_get.
  destruct (get addr m) as [w|] eqn:E; simpl.
  - rewrite E. now apply get_set_other.
  - rewrite get_set_same. now rewrite !get_set_other.
Qed.

Lemma summaryOf_update_same (addr : string) (amount : number) (m : WalletMap) :
  summaryOf addr (updateWallet addr amount m)
  = credit amount (summaryOf addr m).
Proof. unfold summaryOf at 1. now rewrite updateWallet_same. Qed.

Lemma summaryOf_update_other (addr other : string) (amount : number)
      (m : WalletMap) :
  other <> addr ->
  summaryOf other (updateWallet addr amount m) = summaryOf other m.
Proof. intros H. unfold summaryOf. now rewrite updateWallet_other. Qed.

Lemma processEvent_moves (m : WalletMap) (event : TransferEvent)
      (from to : string) (amount : number) :
  moves event from to amount ->
  processEvent m event
  = Ok (updateWallet to amount (updateWallet from amount m)).
Proof.
  intros (d & t1 & t2 & Hd & H1 & H2 & -> & -> & ->).
  unfold processEvent, dataSlice2, topicSlice26. now rewrite Hd, H1, H2.
Qed.



Lemma number_eq (x y : Qc) : (this x == this y)%Q -> Fin x = Fin y.
Proof. intros H. f_equal. now apply Qc_is_canon. Qed.

(** C4. The aggregator updates the running summary of the sender and of
    the receiver of each event, starting from zero totals for a wallet it
    sees for the first time; and on a batch of three events in which a
    wallet sends 10, sends 20 and receives 5, from and to other wallets,
    that wallet ends with 3 transfers, a total of 35 and an average of
    35/3. *)
Theorem wallet_summary_both_sides :
  (forall (walletMap : WalletMap) (event : TransferEvent)
          (from to : string) (amount : number),
      moves event from to amount ->
      from <> to ->
      exists walletMap',
        processEvent walletMap event = Ok walletMap'
        /\ get from walletMap'
           = Some (credit amount (summaryOf from walletMap))
        /\ get to walletMap'
           = Some (credit amount (summaryOf to walletMap)))
  /\ (forall (e1 e2 e3 : TransferEvent) (A B1 B2 B3 : string),
        moves e1 A B1 (ofZ 10) ->
        moves e2 A B2 (ofZ 20) ->
        moves e3 B3 A (ofZ 5) ->
        A <> B1 -> A <> B2 -> A <> B3 ->
        exists walletMap,
          forEachR processEvent [] [e1; e2; e3] = Ok walletMap
          /\ get A walletMap
             = Some {| address := A;
                       totalAmount := ofZ 35;
                       transferCount := 3;
                       averageAmount := Fin (Q2Qc (35 # 3)) |}).
Proof.
  split.
  - intros m event from to amount Hm Hne.
    rewrite (processEvent_moves m Hm). eexists. split; [reflexivity|].
    split.
    + rewrite updateWallet_other by exact Hne. apply updateWallet_same.
    + rewrite updateWallet_same.
      rewrite summaryOf_update_other by congruence. reflexivity.
  - intros e1 e2 e3 A B1 B2 B3 H1 H2 H3 N1 N2 N3.
    cbn [forEachR].
    rewrite (processEvent_moves [] H1). cbn [rbind].
    rewrite (processEvent_moves _ H2). cbn [rbind].
    rewrite (processEvent_moves _ H3). cbn [rbind].
    eexists. split; [reflexivity|].
    rewrite updateWallet_same.
    rewrite summaryOf_update_other by exact N3.
    rewrite summaryOf_update_other by exact N2.
    rewrite summaryOf_update_same.
    rewrite summaryOf_update_other by exact N1.
    rewrite summaryOf_update_same.
    unfold summaryOf. cbn [get credit address totalAmount transferCount].
    f_equal; f_equal; apply number_eq; reflexivity.
Qed.

Lemma wallet_summary_both_sides_witness :
  exists walletMap,
    forEachR processEvent [] [aSends10; aSends20; aReceives5] = Ok walletMap
    /\ get "0xaaaaaaaaaaaaaaaaaaaaaaaaaaaaaaaaaaaaaaaa" walletMap
       = Some {| address := "0xaaaaaaaaaaaaaaaaaaaaaaaaaaaaaaaaaaaaaaaa";
                 totalAmount := ofZ 35;
                 transferCount := 3;
                 averageAmount := Fin (Q2Qc (35 # 3)) |}.
Proof.
  apply (proj2 wallet_summary_both_sides aSends10 aSends20 aReceives5
           "0xaaaaaaaaaaaaaaaaaaaaaaaaaaaaaaaaaaaaaaaa"
           "0xb1b1b1b1b1b1b1b1b1b1b1b1b1b1b1b1b1b1b1b1"
           "0xb2b2b2b2b2b2b2b2b2b2b2b2b2b2b2b2b2b2b2b2"
           "0xb3b3b3b3b3b3b3b3b3b3b3b3b3b3b3b3b3b3b3b3").
  - do 3 eexists. repeat split; try reflexivity.
    apply number_eq. reflexivity.
  - do 3 eexists. repeat split; try reflexivity.
    apply number_eq. reflexivity.
  - do 3 eexists. repeat split; try reflexivity.
    apply number_eq. reflexivity.
  - discriminate.
  - discriminate.
  - discriminate.
Defined.

(** ** The ten largest *)

Lemma getTopWallets_ok (events : list TransferEvent) (m : WalletMap)
      (s : State) :
  events <> [] ->
  forEachR processEvent [] events = Ok m ->
  getTopWallets (Body (Some events)) s
  = (Ok tt, {| walletStats := sortedWallets m; loading := false;
               isRefreshing := false; error := None;
               console := console s |}).
Proof.
  intros Hne H. destruct events as [|e events]; [congruence|].
  unfold getTopWallets, Effect.tryCatchFinally, Effect.bind, Effect.await,
    Effect.ret, Effect.lift.
  cbn -[forEachR processEvent sortedWallets].
  match goal with
  | |- context [match ?t with Ok _ => _ | Throw _ => _ end] =>
      replace t with (@Ok WalletMap m) by (symmetry; exact H)
  end.
  reflexivity.
Qed.

Lemma atLeast_trans (a b c : WalletSummary) :
  atLeast a b -> atLeast b c -> atLeast a c.
Proof.
  intros (x & y & Hx & Hy & Hxy) (y' & z & Hy' & Hz & Hyz).
  rewrite Hy in Hy'. injection Hy' as <-.
  exists x, z. repeat split; auto. eapply Qcle_trans; eauto.
Qed.

Lemma byVolume_sign (a b : WalletSummary) (x y : Qc) :
  totalAmount a = Fin x -> totalAmount b = Fin y ->
  sign (byVolume a b) = (y ?= x)%Qc.
Proof. unfold byVolume. intros -> ->. apply sign_sub. Qed.

Lemma sort_byVolume_sorted (l : list WalletSummary) :
  Forall finiteTotal l -> StronglySorted atLeast (sort byVolume l).
Proof.
  apply (@SortFacts.sort_sorted _ byVolume finiteTotal atLeast atLeast_trans).
  - intros a b [x Hx] [y Hy] Hs. rewrite (byVolume_sign _ _ Hx Hy) in Hs.
    exists x, y. split; [exact Hx|]. split; [exact Hy|]. exact Hs.
  - intros a b [x Hx] [y Hy] Hs. rewrite (byVolume_sign _ _ Hx Hy) in Hs.
    exists y, x. split; [exact Hy|]. split; [exact Hx|].
    apply Qclt_le_weak. now apply Qcgt_alt in Hs.
Qed.

Lemma StronglySorted_app (A : Type) (R : A -> A -> Prop) (l1 l2 : list A) :
  StronglySorted R (l1 ++ l2) ->
  StronglySorted R l1
  /\ forall x y, In x l1 -> In y l2 -> R x y.
Proof.
  induction l1 as [|a l1 IH]; simpl; intros H.
  - split; [constructor | intros x y []].
  - inversion H as [|? ? Hs Hall]; subst.
    destruct (IH Hs) as [IH1 IH2]. split.
    + constructor; [exact IH1|].
      rewrite Forall_forall in *. intros z Hz. apply Hall.
      apply in_or_app. now left.
    + intros x y [<-|Hx] Hy; [|now apply IH2].
      rewrite Forall_forall in Hall. apply Hall.
      apply in_or_app. now right.
Qed.

Lemma StronglySorted_strict (l : list WalletSummary) :
  StronglySorted atLeast l -> NoDup (map totalAmount l) ->
  StronglySorted moreThan l.
Proof.
  induction 1 as [|a l Hs IH Hall]; intros Hnd; [constructor|].
  simpl in Hnd. inversion Hnd as [|? ? Hnotin Hnd']; subst.
  constructor; [now apply IH|].
  rewrite Forall_forall in *. intros b Hb.
  destruct (Hall b Hb) as (x & y & Hx & Hy & Hle).
  exists x, y. split; [exact Hx|]. split; [exact Hy|].
  destruct (Qcle_lt_or_eq _ _ Hle) as [Hlt|Heq]; [exact Hlt|].
  exfalso. apply Hnotin. rewrite Hx, <- Heq, <- Hy. now apply in_map.
Qed.

(** C5. When the events of a batch give 15 wallets whose totals are all
    different, the table receives exactly 10 summaries: each has moved
    more than the ones after it, and more than each of the 5 wallets left
    out. *)
Theorem top_ten_of_fifteen (events : list TransferEvent) (m : WalletMap)
        (s : State) :
  forEachR processEvent [] events = Ok m ->
  List.length m = 15%nat ->
  Forall finiteTotal (values m) ->
  NoDup (map totalAmount (values m)) ->
  let top := walletStats (snd (getTopWallets (Body (Some events)) s)) in
  top = sortedWallets m
  /\ List.length top = 10%nat
  /\ StronglySorted moreThan top
  /\ incl top (values m)
  /\ forall w w', In w top -> In w' (values m) -> ~ In w' top ->
                  moreThan w w'.
Proof.
  intros Hm Hlen Hfin Hnd.
  assert (Hne : events <> []).
  { intros ->. simpl in Hm. injection Hm as <-. discriminate. }
  rewrite (getTopWallets_ok s Hne Hm). cbn [snd walletStats].
  set (sorted := sort byVolume (values m)).
  assert (Hperm : Permutation (values m) sorted)
    by apply SortFacts.sort_perm.
  assert (Hstrict : StronglySorted moreThan sorted).
  { apply StronglySorted_strict.
    - now apply sort_byVolume_sorted.
    - eapply Permutation_NoDup; [|exact Hnd]. now apply Permutation_map. }
  assert (Hsplit : sorted = firstn 10 sorted ++ skipn 10 sorted)
    by (symmetry; apply firstn_skipn).
  rewrite Hsplit in Hstrict.
  destruct (StronglySorted_app _ _ Hstrict) as [Htop Hcross].
  unfold sortedWallets. fold sorted.
  split; [reflexivity|]. split.
  { rewrite length_firstn. unfold sorted.
    rewrite SortFacts.sort_length. unfold values. rewrite length_map, Hlen.
    reflexivity. }
  split; [exact Htop|]. split.
  { intros w Hw. apply (Permutation_in _ (Permutation_sym Hperm)).
    rewrite Hsplit. apply in_or_app. now left. }
  intros w w' Hw Hw' Hout. apply Hcross; [exact Hw|].
  apply (Permutation_in _ Hperm) in Hw'. rewrite Hsplit in Hw'.
  apply in_app_or in Hw'. tauto.
Qed.

Lemma top_ten_of_fifteen_witness :
  List.length
    (walletStats (snd (getTopWallets (Body (Some chain)) initial)))
  = 10%nat.
Proof.
  eapply (@top_ten_of_fifteen chain _ initial).
  - vm_compute. reflexivity.
  - reflexivity.
  - repeat constructor; eexists; reflexivity.
  - repeat (constructor; [simpl; intuition discriminate|]). constructor.
Defined.
End TopUsdcWalletsFacts.

(* ===================================================================== *)
(** * The transactions-per-minute chart *)
(* ===================================================================== *)

Module UsdcVolumeChartFacts.
Import API UsdcVolumeChart JSFacts Spec Sample.

(** ** The accumulator *)

Lemma or0_succ (v : nat) : (match v with O => 0 | _ => v end + 1 = S v)%nat.
Proof. destruct v; lia. Qed.

Lemma increment_same (label : string) (acc : Counts) :
  getCount label (increment label acc) = Some (S (countOr0 label acc)).
Proof.
  unfold countOr0. induction acc as [|[k v] acc IH]; simpl.
  - now rewrite String.eqb_refl.
  - destruct (String.eqb k label) eqn:E; simpl; rewrite E.
    + now rewrite or0_succ.
    + exact IH.
Qed.

Lemma increment_other (label other : string) (acc : Counts) :
  other <> label -> getCount other (increment label acc) = getCount other acc.
Proof.
  intros Hne. induction acc as [|[k v] acc IH]; simpl.
  - destruct (String.eqb_spec label other); congruence.
  - destruct (String.eqb_spec k label) as [->|Hk]; simpl.
    + destruct (String.eqb_spec label other); congruence.
    + destruct (String.eqb k other); auto.
Qed.

Lemma increment_keys (label : string) (acc : Counts) :
  map fst (increment label acc)
  = if existsb (String.eqb label) (map fst acc)
    then map fst acc else map fst acc ++ [label].
Proof.
  induction acc as [|[k v] acc IH]; simpl; [reflexivity|].
  rewrite (String.eqb_sym label k).
  destruct (String.eqb k label); simpl; [reflexivity|].
  rewrite IH. now destruct (existsb _ _).
Qed.

Lemma increment_NoDup (label : string) (acc : Counts) :
  NoDup (map fst acc) -> NoDup (map fst (increment label acc)).
Proof.
  intros H. rewrite increment_keys.
  destruct (existsb _ _) eqn:E; [exact H|].
  apply NoDup_app; [exact H | repeat constructor; intros [] |].
  intros k Hk [Hl|[]]. subst k.
  assert (C : existsb (String.eqb label) (map fst acc) = true).
  { apply existsb_exists. exists label.
    split; [exact Hk | apply String.eqb_refl]. }
  congruence.
Qed.

Lemma getCount_filter (label : string) (acc : Counts) (v : nat) :
  NoDup (map fst acc) -> getCount label acc = Some v ->
  filter (fun entry => String.eqb (fst entry) label) acc = [(label, v)].
Proof.
  induction acc as [|[k w] acc IH]; simpl; intros Hnd Hget; [discriminate|].
  inversion Hnd as [|? ? Hnotin Hnd']; subst.
  destruct (String.eqb_spec k label) as [->|Hk].
  - injection Hget as ->. f_equal.
    clear IH Hnd. induction acc as [|[k' w'] acc IH']; [reflexivity|].
    simpl in *. destruct (String.eqb_spec k' label) as [->|Hk'].
    + tauto.
    + inversion Hnd'; subst. apply IH'; auto.
  - now apply IH.
Qed.

Lemma filter_entries (label : string) (acc : Counts) :
  filter (fun v => String.eqb (minute v) label)
         (map (fun entry => {| minute := fst entry; volume := snd entry |}) acc)
  = map (fun entry => {| minute := fst entry; volume := snd entry |})
        (filter (fun entry => String.eqb (fst entry) label) acc).
Proof.
  induction acc as [|[k v] acc IH]; simpl; [reflexivity|].
  destruct (String.eqb k label); simpl; now rewrite IH.
Qed.

Section WithHost.
Variable host : Host.

Lemma fold_countTransfer_NoDup (events : list Transfer) (acc : Counts) :
  NoDup (map fst acc) ->
  NoDup (map fst (fold_left (countTransfer host) events acc)).
Proof.
  revert acc; induction events as [|e events IH]; intros acc H; [exact H|].
  simpl. apply IH. now apply increment_NoDup.
Qed.

(** After the reduce, a minute holds what it held before plus the number
    of events of the batch that fall in it. *)
Lemma fold_countTransfer_count (label : string) (events : list Transfer)
      (acc : Counts) :
  let hits :=
    filter (fun e => String.eqb (minuteOf host e) label) events in
  getCount label (fold_left (countTransfer host) events acc)
  = match hits with
    | [] => getCount label acc
    | _ => Some (List.length hits + countOr0 label acc)%nat
    end.
Proof.
  revert acc; induction events as [|e events IH]; intros acc;
    [reflexivity|].
  cbn [fold_left filter]. cbv zeta in IH. rewrite IH.
  unfold countTransfer.
  destruct (String.eqb_spec (minuteOf host e) label) as [E|E].
  - unfold countOr0 at 1. rewrite E, increment_same.
    destruct (filter _ events); cbn [List.length]; f_equal; lia.
  - unfold countOr0. rewrite increment_other by congruence.
    reflexivity.
Qed.

Lemma sortedData_buckets (label : string) (events : list Transfer) (n : nat) :
  getCount label (fold_left (countTransfer host) events []) = Some n ->
  countBuckets label (sortedData host events)
  = [{| minute := label; volume := n |}].
Proof.
  intros Hget. unfold countBuckets, sortedData.
  eapply SortFacts.filter_perm_single; [apply SortFacts.sort_perm|].
  set (acc := fold_left (countTransfer host) events []) in *.
  assert (Hnd : NoDup (map fst acc))
    by (apply fold_countTransfer_NoDup; constructor).
  pose proof (@getCount_filter label acc n Hnd Hget) as Hf.
  rewrite filter_entries, Hf. reflexivity.
Qed.

Lemma getVolumeData_ok (e : Transfer) (events : list Transfer) (s : State) :
  getVolumeData host (Body (Some (e :: events))) s
  = (Ok tt, {| volumeData := sortedData host (e :: events);
               loading := false; isRefreshing := false; error := None;
               console := console s |}).
Proof. reflexivity. Qed.

Lemma minuteOf_timestamp (a b : Transfer) :
  block_timestamp a = block_timestamp b -> minuteOf host a = minuteOf host b.
Proof. unfold minuteOf. now intros ->. Qed.

Lemma fold_countTransfer_timestamps (es1 es2 : list Transfer) (acc : Counts) :
  map block_timestamp es1 = map block_timestamp es2 ->
  fold_left (countTransfer host) es1 acc
  = fold_left (countTransfer host) es2 acc.
Proof.
  revert es2 acc; induction es1 as [|a es1 IH]; intros [|b es2] acc H;
    try discriminate; [reflexivity|].
  simpl in H. injection H as Hab H. simpl.
  unfold countTransfer at 2 4. rewrite (minuteOf_timestamp _ _ Hab).
  now apply IH.
Qed.

(** C10. The chart of the count-by-minute view depends on the block
    times of the events only: two responses whose events carry the same
    block times in the same order, whatever their data and topics, give
    the same sorted chart and leave the view in the same state. *)
Theorem count_chart_reads_timestamps_only (es1 es2 : list Transfer)
        (s : State) :
  map block_timestamp es1 = map block_timestamp es2 ->
  sortedData host es1 = sortedData host es2
  /\ getVolumeData host (Body (Some es1)) s
     = getVolumeData host (Body (Some es2)) s.
Proof.
  intros H.
  assert (E : sortedData host es1 = sortedData host es2).
  { unfold sortedData. now rewrite (fold_countTransfer_timestamps _ _ [] H). }
  split; [exact E|].
  destruct es1 as [|a es1], es2 as [|b es2]; try discriminate;
    [reflexivity|].
  now rewrite !getVolumeData_ok, E.
Qed.
End WithHost.

Lemma count_chart_reads_timestamps_only_witness :
  sortedData utc [newest; older] = sortedData utc [newestOtherFields; older].
Proof.
  exact (proj1 (@count_chart_reads_timestamps_only utc
                  [newest; older] [newestOtherFields; older] initial
                  eq_refl)).
Defined.

End UsdcVolumeChartFacts.

(* ===================================================================== *)
(** * The volume-per-minute chart *)
(* ===================================================================== *)

Module UsdcTransferChartFacts.
Import API UsdcTransferChart JSFacts Spec Sample.

(** ** The accumulator *)

Lemma aggregate_same (acc : list ChartData) (curr : ChartData) :
  bucket (timestamp curr) (aggregate acc curr)
  = Some (merged (bucket (timestamp curr) acc) curr).
Proof.
  unfold bucket. induction acc as [|item acc IH]; simpl.
  - now rewrite String.eqb_refl.
  - destruct (String.eqb (timestamp item) (timestamp curr)) eqn:E; simpl.
    + now rewrite E.
    + now rewrite E.
Qed.

Lemma aggregate_other (label : string) (acc : list ChartData)
      (curr : ChartData) :
  label <> timestamp curr ->
  bucket label (aggregate acc curr) = bucket label acc.
Proof.
  intros Hne. unfold bucket. induction acc as [|item acc IH]; simpl.
  - destruct (String.eqb_spec (timestamp curr) label); congruence.
  - destruct (String.eqb_spec (timestamp item) (timestamp curr)) as [E|E];
      simpl.
    + rewrite E. destruct (String.eqb_spec (timestamp curr) label);
        congruence.
    + destruct (String.eqb (timestamp item) label); auto.
Qed.

Lemma aggregate_keys (acc : list ChartData) (curr : ChartData) :
  map timestamp (aggregate acc curr)
  = if existsb (String.eqb (timestamp curr)) (map timestamp acc)
    then map timestamp acc else map timestamp acc ++ [timestamp curr].
Proof.
  induction acc as [|item acc IH]; simpl; [reflexivity|].
  rewrite (String.eqb_sym (timestamp curr) (timestamp item)).
  destruct (String.eqb (timestamp item) (timestamp curr)); simpl;
    [reflexivity|].
  rewrite IH. now destruct (existsb _ _).
Qed.

Lemma aggregate_NoDup (acc : list ChartData) (curr : ChartData) :
  NoDup (map timestamp acc) -> NoDup (map timestamp (aggregate acc curr)).
Proof.
  intros H. rewrite aggregate_keys.
  destruct (existsb _ _) eqn:E; [exact H|].
  apply NoDup_app; [exact H | repeat constructor; intros [] |].
  intros k Hk [Hl|[]]. subst k.
  assert (C : existsb (String.eqb (timestamp curr)) (map timestamp acc)
              = true).
  { apply existsb_exists. exists (timestamp curr).
    split; [exact Hk | apply String.eqb_refl]. }
  congruence.
Qed.

Lemma fold_aggregate_NoDup (cs acc : list ChartData) :
  NoDup (map timestamp acc) ->
  NoDup (map timestamp (fold_left aggregate cs acc)).
Proof.
  revert acc; induction cs as [|c cs IH]; intros acc H; [exact H|].
  simpl. apply IH. now apply aggregate_NoDup.
Qed.

Lemma bucket_filter (label : string) (acc : list ChartData) (c : ChartData) :
  NoDup (map timestamp acc) -> bucket label acc = Some c ->
  volumeBuckets label acc = [c].
Proof.
  unfold bucket, volumeBuckets.
  induction acc as [|item acc IH]; simpl; intros Hnd Hb; [discriminate|].
  inversion Hnd as [|? ? Hnotin Hnd']; subst.
  destruct (String.eqb_spec (timestamp item) label) as [E|E].
  - injection Hb as ->. f_equal.
    clear IH Hnd. induction acc as [|item acc IH']; [reflexivity|].
    simpl in *. destruct (String.eqb_spec (timestamp item) label) as [E'|E'].
    + exfalso. apply Hnotin. left. congruence.
    + inversion Hnd'; subst. apply IH'; auto.
  - now apply IH.
Qed.

(** After the reduce, the entry of a minute is what the points of that
    minute, taken in order, make of the entry it had. *)
Lemma fold_aggregate_bucket (label : string) (cs acc : list ChartData) :
  bucket label (fold_left aggregate cs acc)
  = fold_left (fun entry c => Some (merged entry c))
              (volumeBuckets label cs) (bucket label acc).
Proof.
  revert acc; induction cs as [|c cs IH]; intros acc; [reflexivity|].
  cbn [fold_left]. rewrite IH. unfold volumeBuckets. cbn [filter].
  destruct (String.eqb_spec (timestamp c) label) as [E|E].
  - cbn [fold_left]. now rewrite <- E, aggregate_same.
  - now rewrite aggregate_other by congruence.
Qed.

Section WithHost.
Variable host : Host.

Lemma formatEvent_timestamp (event : TransferEvent) (c : ChartData) :
  formatEvent host event = Ok c ->
  timestamp c = toLocaleTimeString host (block_timestamp event).
Proof.
  unfold formatEvent. destruct (dataSlice2 event); simpl; [|discriminate].
  now intros [= <-].
Qed.

Lemma mapR_formatEvent_filter (label : string) (events : list TransferEvent)
      (mapped : list ChartData) :
  mapR (formatEvent host) events = Ok mapped ->
  mapR (formatEvent host)
       (filter (fun e => String.eqb
                           (toLocaleTimeString host (block_timestamp e)) label)
               events)
  = Ok (volumeBuckets label mapped).
Proof.
  revert mapped; induction events as [|e events IH]; simpl; intros mapped H.
  - now injection H as <-.
  - destruct (formatEvent host e) as [c|] eqn:Ec; simpl in H; [|discriminate].
    destruct (mapR (formatEvent host) events) as [cs|]; simpl in H;
      [|discriminate].
    injection H as <-. unfold volumeBuckets. cbn [filter].
    rewrite (formatEvent_timestamp _ Ec).
    destruct (String.eqb _ label); simpl.
    + rewrite Ec. simpl. now rewrite (IH cs eq_refl).
    + now apply IH.
Qed.

End WithHost.

End UsdcTransferChartFacts.

(* ===================================================================== *)
(** * Time buckets *)
(* ===================================================================== *)

Module TimeBucketFacts.
Import API Spec Sample.




End TimeBucketFacts.

(* ===================================================================== *)
(** * The refresh lifecycle *)
(* ===================================================================== *)

Module LifecycleFacts.
Import API Spec Sample.

(** ** Decoding a batch with a malformed event *)

Lemma mapR_formatEvent_lacksData (host : Host) (events : list Event) :
  Exists lacksData events ->
  mapR (UsdcTransferChart.formatEvent host) events
  = Throw (TypeError "slice").
Proof.
  induction 1 as [e events He | e events _ IH]; simpl.
  - unfold UsdcTransferChart.formatEvent, dataSlice2.
    unfold lacksData in He. now rewrite He.
  - unfold UsdcTransferChart.formatEvent at 1, dataSlice2.
    destruct (data e); simpl; [|reflexivity].
    now rewrite IH.
Qed.

Lemma processEvent_malformed (m : TopUsdcWallets.WalletMap) (event : Event) :
  lacksData event \/ lacksAddress event ->
  TopUsdcWallets.processEvent m event = Throw (TypeError "slice").
Proof.
  unfold TopUsdcWallets.processEvent, dataSlice2, topicSlice26,
    lacksData, lacksAddress.
  intros [H|[H|H]].
  - now rewrite H.
  - rewrite H. now destruct (data event).
  - destruct (data event); cbn [rbind]; [|reflexivity].
    destruct (nth_error (topics event) 1); cbn [rbind]; [|reflexivity].
    now rewrite H.
Qed.

Lemma processEvent_throw (m : TopUsdcWallets.WalletMap) (event : Event)
      (e : exn) :
  TopUsdcWallets.processEvent m event = Throw e -> e = TypeError "slice".
Proof.
  unfold TopUsdcWallets.processEvent, dataSlice2, topicSlice26.
  destruct (data event); cbn [rbind]; [|congruence].
  destruct (nth_error (topics event) 1); cbn [rbind]; [|congruence].
  destruct (nth_error (topics event) 2); cbn [rbind]; congruence.
Qed.

Lemma forEachR_processEvent_malformed (events : list Event)
      (m : TopUsdcWallets.WalletMap) :
  Exists (fun event => lacksData event \/ lacksAddress event) events ->
  forEachR TopUsdcWallets.processEvent m events = Throw (TypeError "slice").
Proof.
  intros H. revert m.
  induction H as [e events He | e events _ IH]; intros m; simpl.
  - now rewrite processEvent_malformed.
  - destruct (TopUsdcWallets.processEvent m e) as [m'|x] eqn:E; simpl.
    + apply IH.
    + f_equal. eauto using processEvent_throw.
Qed.

(** ** The four fetch functions on a failure *)

Lemma chart_rejected (host : Host) (e : exn) (s : UsdcTransferChart.State) :
  UsdcTransferChart.getUsdcTransfers host (Rejected e) s
  = (Ok tt, chartFailed s e).
Proof. reflexivity. Qed.

Lemma chart_empty (host : Host) (fetched : Fetched)
      (s : UsdcTransferChart.State) :
  EmptyResponse fetched ->
  UsdcTransferChart.getUsdcTransfers host fetched s
  = (Ok tt, chartFailed s NoTransferData).
Proof. intros [-> | ->]; reflexivity. Qed.

Lemma chart_malformed (host : Host) (fetched : Fetched)
      (s : UsdcTransferChart.State) :
  MalformedEvent lacksData fetched ->
  UsdcTransferChart.getUsdcTransfers host fetched s
  = (Ok tt, chartFailed s (TypeError "slice")).
Proof.
  intros (events & -> & H).
  destruct events as [|e events]; [inversion H|].
  unfold UsdcTransferChart.getUsdcTransfers, Effect.tryCatchFinally,
    Effect.bind, Effect.await, Effect.ret, Effect.lift.
  cbn -[mapR UsdcTransferChart.formatEvent sort TypeError].
  unfold UsdcTransferChart.formatData.
  rewrite (mapR_formatEvent_lacksData host H). reflexivity.
Qed.

Lemma wallets_rejected (e : exn) (s : TopUsdcWallets.State) :
  TopUsdcWallets.getTopWallets (Rejected e) s = (Ok tt, walletsFailed s e).
Proof. reflexivity. Qed.

Lemma wallets_empty (fetched : Fetched) (s : TopUsdcWallets.State) :
  EmptyResponse fetched ->
  TopUsdcWallets.getTopWallets fetched s
  = (Ok tt, walletsFailed s NoTransferData).
Proof. intros [-> | ->]; reflexivity. Qed.

Lemma wallets_malformed (fetched : Fetched) (s : TopUsdcWallets.State) :
  MalformedEvent (fun event => lacksData event \/ lacksAddress event) fetched ->
  TopUsdcWallets.getTopWallets fetched s
  = (Ok tt, walletsFailed s (TypeError "slice")).
Proof.
  intros (events & -> & H).
  destruct events as [|e events]; [inversion H|].
  pose proof (forEachR_processEvent_malformed [] H) as E.
  unfold TopUsdcWallets.getTopWallets, Effect.tryCatchFinally,
    Effect.bind, Effect.await, Effect.ret, Effect.lift.
  cbn -[forEachR TopUsdcWallets.processEvent TopUsdcWallets.sortedWallets
        TypeError].
  match goal with
  | |- context [match ?t with Ok _ => _ | Throw _ => _ end] =>
      replace t with (@Throw TopUsdcWallets.WalletMap (TypeError "slice"))
        by (symmetry; exact E)
  end.
  reflexivity.
Qed.

Lemma count_rejected (host : Host) (e : exn) (s : UsdcVolumeChart.State) :
  UsdcVolumeChart.getVolumeData host (Rejected e) s = (Ok tt, countFailed s e).
Proof. reflexivity. Qed.

Lemma count_empty (host : Host) (fetched : Fetched)
      (s : UsdcVolumeChart.State) :
  EmptyResponse fetched ->
  UsdcVolumeChart.getVolumeData host fetched s
  = (Ok tt, countFailed s NoTransferData).
Proof. intros [-> | ->]; reflexivity. Qed.

Lemma table_no_data_array (s : UsdcTransfers.State) :
  UsdcTransfers.getUsdcTransfers (Body None) s
  = (Ok tt, tableFailed s (TypeError "sort")).
Proof. reflexivity. Qed.

Lemma table_malformed (events : list Event) (s : UsdcTransfers.State) :
  (2 <= List.length events)%nat ->
  Exists lacksData events ->
  UsdcTransfers.getUsdcTransfers (Body (Some events)) s
  = (Ok tt, tableFailed s (TypeError "slice")).
Proof.
  intros Hlen H. apply UsdcTransfersFacts.getUsdcTransfers_throw.
  now apply UsdcTransfersFacts.sortR_lacksData.
Qed.

(** C2, as the code has it.  In the three aggregating views a failed
    fetch or decode sets the error message to the message of the very
    exception that was raised, prints that exception, clears both loading
    flags and leaves the result set as it was: the exception is the one
    the call rejected with, [No transfer data received] when the response
    has no events, and the [TypeError] of the missing field when an event
    lacks a field the view decodes.  The recent-transfers table does the
    same without an error message: it prints the exception (the
    rejection, or the [TypeError] of the missing [data] array or data
    field) and no more.  No view lets the exception escape. *)
Theorem loading_to_failed :
  (forall host s,
      (forall e,
          UsdcTransferChart.getUsdcTransfers host (Rejected e) s
          = (Ok tt, chartFailed s e))
      /\ (forall fetched,
            EmptyResponse fetched ->
            UsdcTransferChart.getUsdcTransfers host fetched s
            = (Ok tt, chartFailed s NoTransferData))
      /\ (forall fetched,
            MalformedEvent lacksData fetched ->
            UsdcTransferChart.getUsdcTransfers host fetched s
            = (Ok tt, chartFailed s (TypeError "slice"))))
  /\ (forall s,
        (forall e,
            TopUsdcWallets.getTopWallets (Rejected e) s
            = (Ok tt, walletsFailed s e))
        /\ (forall fetched,
              EmptyResponse fetched ->
              TopUsdcWallets.getTopWallets fetched s
              = (Ok tt, walletsFailed s NoTransferData))
        /\ (forall fetched,
              MalformedEvent
                (fun event => lacksData event \/ lacksAddress event) fetched ->
              TopUsdcWallets.getTopWallets fetched s
              = (Ok tt, walletsFailed s (TypeError "slice"))))
  /\ (forall host s,
        (forall e,
            UsdcVolumeChart.getVolumeData host (Rejected e) s
            = (Ok tt, countFailed s e))
        /\ (forall fetched,
              EmptyResponse fetched ->
              UsdcVolumeChart.getVolumeData host fetched s
              = (Ok tt, countFailed s NoTransferData)))
  /\ (forall s,
        (forall e,
            UsdcTransfers.getUsdcTransfers (Rejected e) s
            = (Ok tt, tableFailed s e))
        /\ UsdcTransfers.getUsdcTransfers (Body None) s
           = (Ok tt, tableFailed s (TypeError "sort"))
        /\ (forall events,
              (2 <= List.length events)%nat ->
              Exists lacksData events ->
              UsdcTransfers.getUsdcTransfers (Body (Some events)) s
              = (Ok tt, tableFailed s (TypeError "slice")))).
Proof.
  split; [|split; [|split]].
  - intros host s. split; [|split].
    + intros e. apply chart_rejected.
    + intros fetched H. now apply chart_empty.
    + intros fetched H. now apply chart_malformed.
  - intros s. split; [|split].
    + intros e. apply wallets_rejected.
    + intros fetched H. now apply wallets_empty.
    + intros fetched H. now apply wallets_malformed.
  - intros host s. split.
    + intros e. apply count_rejected.
    + intros fetched H. now apply count_empty.
  - intros s. split; [|split].
    + intros e. apply UsdcTransfersFacts.getUsdcTransfers_rejected.
    + apply table_no_data_array.
    + intros events Hlen H. now apply table_malformed.
Qed.

Lemma loading_to_failed_witness :
  UsdcTransferChart.getUsdcTransfers utc
    (Body (Some [newest; newestOtherFields])) UsdcTransferChart.initial
  = (Ok tt, chartFailed UsdcTransferChart.initial (TypeError "slice"))
  /\ TopUsdcWallets.getTopWallets (Rejected (Exn "Failed to fetch"))
       TopUsdcWallets.initial
     = (Ok tt,
        {| TopUsdcWallets.walletStats := [];
           TopUsdcWallets.loading := false;
           TopUsdcWallets.isRefreshing := false;
           TopUsdcWallets.error := Some "Failed to fetch";
           TopUsdcWallets.console := [Exn "Failed to fetch"] |})
  /\ UsdcVolumeChart.getVolumeData utc (Body None) UsdcVolumeChart.initial
     = (Ok tt, countFailed UsdcVolumeChart.initial NoTransferData)
  /\ UsdcTransfers.getUsdcTransfers
       (Body (Some [newest; newestOtherFields])) UsdcTransfers.initial
     = (Ok tt, tableFailed UsdcTransfers.initial (TypeError "slice")).
Proof.
  destruct loading_to_failed as (H1 & H2 & H3 & H4).
  split; [|split; [|split]].
  - apply (proj2 (proj2 (H1 utc UsdcTransferChart.initial))).
    eexists. split; [reflexivity|].
    apply Exists_cons_tl, Exists_cons_hd. reflexivity.
  - exact (proj1 (H2 TopUsdcWallets.initial) (Exn "Failed to fetch")).
  - apply (proj2 (H3 utc UsdcVolumeChart.initial)).
    left. reflexivity.
  - apply (proj2 (proj2 (H4 UsdcTransfers.initial))).
    + simpl. lia.
    + apply Exists_cons_tl, Exists_cons_hd. reflexivity.
Defined.

(** C2 fails as stated: when the network call of the recent-transfers
    table rejects, the exception is printed and the flags are cleared, and
    the view has no error message. *)
Lemma table_failure_sets_no_message :
  NetworkError (Rejected (Exn "Failed to fetch"))
  /\ UsdcTransfers.getUsdcTransfers (Rejected (Exn "Failed to fetch"))
       UsdcTransfers.initial
     = (Ok tt,
        {| UsdcTransfers.transfers := [];
           UsdcTransfers.loading := false;
           UsdcTransfers.isRefreshing := false;
           UsdcTransfers.console := [Exn "Failed to fetch"] |})
  /\ ~ exists msg,
        UsdcTransfers.errorMessage
          (snd (UsdcTransfers.getUsdcTransfers
                  (Rejected (Exn "Failed to fetch")) UsdcTransfers.initial))
        = Some msg.
Proof.
  split; [eexists; reflexivity|]. split; [reflexivity|].
  intros [msg H]. discriminate.
Qed.

(** C3, as the code has it.  On a response without events the three
    aggregating views set the error message [No transfer data received],
    clear both loading flags and leave the result set as it was, so empty
    on a first load.  The recent-transfers table takes an empty [data]
    array as a result: it stores the empty list and reports nothing.  No
    view lets an exception escape. *)
Theorem empty_response_handled (host : Host) (fetched : Fetched) :
  EmptyResponse fetched ->
  (forall s,
      UsdcTransferChart.getUsdcTransfers host fetched s
      = (Ok tt, chartFailed s NoTransferData))
  /\ (forall s,
        TopUsdcWallets.getTopWallets fetched s
        = (Ok tt, walletsFailed s NoTransferData))
  /\ (forall s,
        UsdcVolumeChart.getVolumeData host fetched s
        = (Ok tt, countFailed s NoTransferData))
  /\ (forall s,
        UsdcTransfers.getUsdcTransfers (Body (Some [])) s
        = (Ok tt,
           {| UsdcTransfers.transfers := [];
              UsdcTransfers.loading := false;
              UsdcTransfers.isRefreshing := false;
              UsdcTransfers.console := UsdcTransfers.console s |})).
Proof.
  intros H. repeat split; intros s.
  - now apply chart_empty.
  - now apply wallets_empty.
  - now apply count_empty.
Qed.

Lemma empty_response_handled_witness :
  UsdcTransferChart.error
    (snd (UsdcTransferChart.getUsdcTransfers utc (Body (Some []))
            UsdcTransferChart.initial))
  = Some "No transfer data received"
  /\ UsdcTransferChart.chartData
       (snd (UsdcTransferChart.getUsdcTransfers utc (Body (Some []))
               UsdcTransferChart.initial))
     = [].
Proof.
  rewrite (proj1 (@empty_response_handled utc (Body (Some []))
                    (or_intror eq_refl)) UsdcTransferChart.initial).
  split; reflexivity.
Defined.

(** C3 fails as stated: on an empty [data] array the recent-transfers
    table raises no error condition, not even on the console. *)
Lemma table_empty_raises_no_error :
  EmptyResponse (Body (Some []))
  /\ UsdcTransfers.getUsdcTransfers (Body (Some [])) UsdcTransfers.initial
     = (Ok tt,
        {| UsdcTransfers.transfers := [];
           UsdcTransfers.loading := false;
           UsdcTransfers.isRefreshing := false;
           UsdcTransfers.console := [] |})
  /\ ~ exists msg,
        UsdcTransfers.errorMessage
          (snd (UsdcTransfers.getUsdcTransfers (Body (Some []))
                  UsdcTransfers.initial))
        = Some msg.
Proof.
  split; [right; reflexivity|]. split; [reflexivity|].
  intros [msg H]. discriminate.
Qed.
End LifecycleFacts.

(* ===================================================================== *)
(** * The transactions-per-minute chart, as a whole *)
(* ===================================================================== *)

Module CountChartFacts.
Import API UsdcVolumeChart JSFacts Spec Sample Notions.
Import UsdcVolumeChartFacts.

Lemma getCount_none_filter (label : string) (acc : Counts) :
  getCount label acc = None ->
  filter (fun entry => String.eqb (fst entry) label) acc = [].
Proof.
  induction acc as [|[k v] acc IH]; simpl; [reflexivity|].
  destruct (String.eqb k label); [discriminate | exact IH].
Qed.

Lemma list_sum_perm (l l' : list nat) :
  Permutation l l' -> list_sum l = list_sum l'.
Proof.
  induction 1; simpl; lia.
Qed.

Lemma increment_sum (label : string) (acc : Counts) :
  list_sum (map snd (increment label acc)) = S (list_sum (map snd acc)).
Proof.
  induction acc as [|[k v] acc IH]; simpl; [reflexivity|].
  destruct (String.eqb k label); simpl.
  - rewrite or0_succ. lia.
  - rewrite IH. lia.
Qed.

Lemma increment_positive (label : string) (acc : Counts) :
  Forall (fun entry => (1 <= snd entry)%nat) acc ->
  Forall (fun entry => (1 <= snd entry)%nat) (increment label acc).
Proof.
  induction 1 as [|[k v] acc Hv Hacc IH]; simpl.
  - repeat constructor.
  - destruct (String.eqb k label); constructor; auto.
    simpl. rewrite or0_succ. lia.
Qed.

(** Reading back a two-digit field of a label. *)
Lemma two_digits_nat (k : nat) :
  (k < 60)%nat ->
  exists c1 c2,
    padStart2 (StringOfInt (Some (Z.of_nat k))) = String c1 (String c2 "")
    /\ c1 <> ":"%char /\ c2 <> ":"%char
    /\ decimalValue 0 (String c1 (String c2 "")) = Some (Z.of_nat k).
Proof.
  intros Hk.
  do 60 (destruct k as [|k];
         [do 2 eexists; split; [reflexivity|];
          split; [discriminate|]; split; [discriminate | reflexivity]|]).
  lia.
Qed.

Lemma two_digits (n : Z) :
  0 <= n < 60 ->
  exists c1 c2,
    padStart2 (StringOfInt (Some n)) = String c1 (String c2 "")
    /\ c1 <> ":"%char /\ c2 <> ":"%char
    /\ decimalValue 0 (String c1 (String c2 "")) = Some n.
Proof.
  intros Hn. rewrite <- (Z2Nat.id n) by lia.
  apply two_digits_nat. lia.
Qed.

Lemma two_digits_plain (n : Z) (c1 c2 : ascii) :
  0 <= n < 60 ->
  padStart2 (StringOfInt (Some n)) = String c1 (String c2 "") ->
  Ascii.eqb c1 ":" = false /\ Ascii.eqb c2 ":" = false.
Proof.
  intros Hn E. destruct (two_digits Hn) as (a & b & E' & Na & Nb & _).
  rewrite E in E'. injection E' as -> ->.
  split; now apply Ascii.eqb_neq.
Qed.

Lemma ofZ_mul_add (a b c : Z) :
  add (mul (ofZ a) (ofZ b)) (ofZ c) = ofZ (a * b + c).
Proof.
  unfold ofZ, add, mul. f_equal. apply Qc_is_canon.
  unfold Qcplus, Qcmult, Q2Qc; cbn [this]. rewrite !Qred_correct.
  rewrite inject_Z_plus, inject_Z_mult. reflexivity.
Qed.

Lemma ofZ_compare (x y : Z) :
  (Q2Qc (inject_Z x) ?= Q2Qc (inject_Z y))%Qc = (x ?= y).
Proof.
  unfold Qccompare, Q2Qc; cbn [this]. rewrite !Qred_correct.
  unfold Qcompare, inject_Z; cbn [Qnum Qden]. now rewrite !Z.mul_1_r.
Qed.

Section WithHost.
Variable host : Host.

Lemma fold_countTransfer_sum (events : list Transfer) (acc : Counts) :
  list_sum (map snd (fold_left (countTransfer host) events acc))
  = (List.length events + list_sum (map snd acc))%nat.
Proof.
  revert acc; induction events as [|e events IH]; intros acc; [reflexivity|].
  simpl. rewrite IH. unfold countTransfer. rewrite increment_sum. lia.
Qed.

Lemma fold_countTransfer_positive (events : list Transfer) (acc : Counts) :
  Forall (fun entry => (1 <= snd entry)%nat) acc ->
  Forall (fun entry => (1 <= snd entry)%nat)
         (fold_left (countTransfer host) events acc).
Proof.
  revert acc; induction events as [|e events IH]; intros acc H; [exact H|].
  simpl. apply IH. now apply increment_positive.
Qed.

Lemma sortedData_perm (events : list Transfer) :
  Permutation
    (map (fun entry => {| minute := fst entry; volume := snd entry |})
         (fold_left (countTransfer host) events []))
    (sortedData host events).
Proof. apply SortFacts.sort_perm. Qed.

(** The bars of a minute: none when no event of the batch falls in it,
    and otherwise one bar, as tall as the number of events that do. *)
Theorem bars_count_events (events : list Transfer) (label : string) :
  countBuckets label (sortedData host events)
  = match List.length
            (filter (fun e => String.eqb (minuteOf host e) label) events) with
    | O => []
    | n => [{| minute := label; volume := n |}]
    end.
Proof.
  pose proof (fold_countTransfer_count host label events []) as H.
  cbv zeta in H.
  destruct (filter (fun e => String.eqb (minuteOf host e) label) events)
    as [|e hits] eqn:E.
  - cbn [List.length]. unfold countBuckets.
    apply Permutation_nil.
    eapply perm_trans; [|apply SortFacts.filter_perm, sortedData_perm].
    rewrite filter_entries, getCount_none_filter by exact H. constructor.
  - cbn [List.length].
    rewrite (sortedData_buckets host label events H).
    unfold countOr0. cbn [getCount]. now rewrite Nat.add_0_r.
Qed.

(** No event is lost and none is counted twice: the bars add up to the
    number of events, each bar stands for one event at least, and no two
    bars carry the same minute. *)
Theorem bars_add_up (events : list Transfer) :
  list_sum (map volume (sortedData host events)) = List.length events
  /\ Forall (fun bar => (1 <= volume bar)%nat) (sortedData host events)
  /\ NoDup (map minute (sortedData host events)).
Proof.
  pose proof (sortedData_perm events) as Hp.
  split; [|split].
  - rewrite <- (list_sum_perm (Permutation_map volume Hp)).
    rewrite map_map. cbn [volume].
    rewrite fold_countTransfer_sum. simpl. lia.
  - eapply Permutation_Forall; [exact Hp|].
    apply Forall_map. cbn [volume].
    apply fold_countTransfer_positive. constructor.
  - eapply Permutation_NoDup; [apply Permutation_map, Hp|].
    rewrite map_map. cbn [minute].
    apply fold_countTransfer_NoDup. constructor.
Qed.

(** ** The order of the bars *)

Lemma increment_key_origin (label k : string) (acc : Counts) :
  In k (map fst (increment label acc)) -> In k (map fst acc) \/ k = label.
Proof.
  rewrite increment_keys. destruct (existsb _ _); [now left|].
  intros H. apply in_app_or in H. destruct H as [H|[H|[]]]; auto.
Qed.

Lemma fold_countTransfer_key_origin (events : list Transfer) (acc : Counts)
      (k : string) :
  In k (map fst (fold_left (countTransfer host) events acc)) ->
  In k (map fst acc) \/ exists e, In e events /\ minuteOf host e = k.
Proof.
  revert acc; induction events as [|e events IH]; intros acc H; [now left|].
  simpl in H. apply IH in H. destruct H as [H|(e' & He' & Hk)].
  - apply increment_key_origin in H. destruct H as [H|H]; [now left|].
    right. exists e. split; [now left | now symmetry].
  - right. exists e'. split; [now right | exact Hk].
Qed.

Lemma minuteOf_reads (e : Transfer) :
  validDate (block_timestamp e) = true ->
  minutesSinceMidnight (minuteOf host e)
  = ofZ (minuteOfDay host (block_timestamp e)).
Proof.
  intros Hv. unfold minuteOf, getHours, getMinutes, minuteOfDay.
  rewrite Hv.
  set (x := block_timestamp e + localOffset host (block_timestamp e)).
  assert (Hh : 0 <= (x / 3600) mod 24 < 60)
    by (pose proof (Z.mod_pos_bound (x / 3600) 24); lia).
  assert (Hm : 0 <= (x / 60) mod 60 < 60)
    by (apply Z.mod_pos_bound; lia).
  destruct (two_digits Hh) as (c1 & c2 & E1 & N1 & N2 & V1).
  destruct (two_digits Hm) as (d1 & d2 & E2 & _ & _ & V2).
  rewrite E1, E2. unfold minutesSinceMidnight, split.
  cbn [append splitAux].
  apply Ascii.eqb_neq in N1, N2. rewrite N1, N2.
  cbn [append splitAux]. rewrite Ascii.eqb_refl.
  destruct (two_digits_plain Hm E2) as [M1 M2].
  rewrite M1, M2. cbn [append map].
  unfold NumberOfString. rewrite V1, V2.
  apply ofZ_mul_add.
Qed.

Lemma sortedData_reads (events : list Transfer) :
  Forall (fun e => validDate (block_timestamp e) = true) events ->
  Forall (fun bar => exists z, minutesSinceMidnight (minute bar) = ofZ z)
         (map (fun entry => {| minute := fst entry; volume := snd entry |})
              (fold_left (countTransfer host) events [])).
Proof.
  intros Hv. apply Forall_map. cbn [minute]. apply Forall_forall.
  intros [k v] Hin.
  assert (Hk : In k (map fst (fold_left (countTransfer host) events [])))
    by (apply in_map_iff; exists (k, v); auto).
  apply fold_countTransfer_key_origin in Hk.
  destruct Hk as [[]|(e & He & <-)].
  rewrite Forall_forall in Hv. cbn [fst].
  eexists. apply minuteOf_reads. now apply Hv.
Qed.

Lemma notLater_trans (a b c : VolumeData) :
  notLater a b -> notLater b c -> notLater a c.
Proof.
  intros (x & y & Hx & Hy & Hxy) (y' & z & Hy' & Hz & Hyz).
  rewrite Hy in Hy'.
  assert (Hq : Q2Qc (inject_Z y) = Q2Qc (inject_Z y'))
    by (unfold ofZ in Hy'; congruence).
  assert (y = y').
  { apply Z.compare_eq. rewrite <- ofZ_compare, Hq. now apply Qceq_alt. }
  subst y'. exists x, z. split; [exact Hx|]. split; [exact Hz|]. lia.
Qed.

Lemma byTime_sign (a b : VolumeData) (x y : Z) :
  minutesSinceMidnight (minute a) = ofZ x ->
  minutesSinceMidnight (minute b) = ofZ y ->
  sign (byTime a b) = (x ?= y).
Proof.
  intros Ha Hb. unfold byTime. rewrite Ha, Hb. unfold ofZ.
  rewrite sign_sub. apply ofZ_compare.
Qed.

(** The bars come in the order of the day: when every block time is one a
    [Date] can hold, no bar stands before a bar of an earlier minute. *)
Theorem bars_in_order_of_the_day (events : list Transfer) :
  Forall (fun e => validDate (block_timestamp e) = true) events ->
  StronglySorted notLater (sortedData host events).
Proof.
  intros Hv. unfold sortedData.
  apply (@SortFacts.sort_sorted _ byTime
           (fun bar => exists z, minutesSinceMidnight (minute bar) = ofZ z)
           notLater notLater_trans).
  - intros a b [x Hx] [y Hy] Hs. rewrite (byTime_sign _ _ Hx Hy) in Hs.
    exists x, y. split; [exact Hx|]. split; [exact Hy|].
    now apply Z.compare_le_iff.
  - intros a b [x Hx] [y Hy] Hs. rewrite (byTime_sign _ _ Hx Hy) in Hs.
    exists y, x. split; [exact Hy|]. split; [exact Hx|].
    apply Z.compare_gt_iff in Hs. lia.
  - now apply sortedData_reads.
Qed.

(** ** Events a whole number of days apart *)

(** The label keeps the minute of the day and drops the day: two block
    times whose local times differ by whole days get the same label, so
    the chart counts their events in one bar. *)
Theorem days_apart_share_a_bar (a b : Transfer) (days : Z) :
  validDate (block_timestamp a) = true ->
  validDate (block_timestamp b) = true ->
  block_timestamp b + localOffset host (block_timestamp b)
  = block_timestamp a + localOffset host (block_timestamp a) + 86400 * days ->
  minuteOf host a = minuteOf host b
  /\ sortedData host [a; b]
     = [{| minute := minuteOf host a; volume := 2 |}].
Proof.
  intros Ha Hb Hx.
  assert (E : minuteOf host a = minuteOf host b).
  { unfold minuteOf, getHours, getMinutes. rewrite Ha, Hb, Hx.
    replace ((block_timestamp a + localOffset host (block_timestamp a)
              + 86400 * days) / 3600)
      with ((block_timestamp a + localOffset host (block_timestamp a)) / 3600
            + 24 * days)
      by (rewrite <- Z.div_add by lia; f_equal; lia).
    replace ((block_timestamp a + localOffset host (block_timestamp a)
              + 86400 * days) / 60)
      with ((block_timestamp a + localOffset host (block_timestamp a)) / 60
            + 1440 * days)
      by (rewrite <- Z.div_add by lia; f_equal; lia).
    replace (24 * days) with (days * 24) by lia.
    replace (1440 * days) with (24 * days * 60) by lia.
    now rewrite !Z.mod_add by lia. }
  split; [exact E|].
  unfold sortedData. cbn [fold_left]. unfold countTransfer.
  rewrite <- E. cbn [increment]. rewrite String.eqb_refl. reflexivity.
Qed.

(** ** When the view reports an error *)

(** A response with events cannot fail in this view, whatever their
    fields: it fills the chart and clears an earlier error.  So the view
    ends with an error only if the call rejected or brought no event. *)
Theorem count_view_fails_only_without_events (fetched : Fetched) (s : State) :
  (forall e events,
      fetched = Body (Some (e :: events)) ->
      getVolumeData host fetched s
      = (Ok tt, {| volumeData := sortedData host (e :: events);
                   loading := false; isRefreshing := false; error := None;
                   console := console s |}))
  /\ (error (snd (getVolumeData host fetched s)) <> None ->
      NetworkError fetched \/ EmptyResponse fetched).
Proof.
  split.
  - intros e events ->. apply getVolumeData_ok.
  - destruct fetched as [x | [[|e events]|]]; intros H.
    + left. now exists x.
    + right. now right.
    + rewrite getVolumeData_ok in H. now contradiction H.
    + right. now left.
Qed.

(** What the view shows once a fetch is over: never the spinner; the new
    bars after a response with events; otherwise the error message in
    place of the chart, whatever bars the state still holds.  A rejection
    whose message is empty counts as no error and shows the earlier
    bars. *)
Theorem count_view_shows (fetched : Fetched) (s : State) :
  UsdcVolumeChartView.renderContent (snd (getVolumeData host fetched s))
  = match fetched with
    | Body (Some (e :: events)) =>
        UsdcVolumeChartView.BarChart
          (sortedData host (e :: events))
          (List.length (sortedData host (e :: events)) / 10)%nat
    | Rejected (Exn EmptyString) =>
        UsdcVolumeChartView.BarChart
          (volumeData s) (List.length (volumeData s) / 10)%nat
    | Rejected (Exn msg) => UsdcVolumeChartView.ErrorText msg
    | Body _ => UsdcVolumeChartView.ErrorText "No transfer data received"
    end.
Proof.
  destruct fetched as [[[|c msg]] | [[|e events]|]]; reflexivity.
Qed.
End WithHost.

Lemma bars_in_order_of_the_day_witness :
  map minute (sortedData utc Sample2.morning) = ["08:59"; "09:01"; "09:05"]
  /\ StronglySorted notLater (sortedData utc Sample2.morning).
Proof.
  split; [reflexivity|].
  apply bars_in_order_of_the_day. repeat constructor.
Defined.

Lemma days_apart_share_a_bar_witness :
  sortedData utc [Sample2.nextDay; transferEvent 32700 "" "" ""]
  = [{| minute := "09:05"; volume := 2 |}].
Proof.
  exact (proj2 (@days_apart_share_a_bar utc Sample2.nextDay
                  (transferEvent 32700 "" "" "") (-1)
                  eq_refl eq_refl eq_refl)).
Defined.

Lemma count_view_fails_only_without_events_witness :
  error (snd (getVolumeData utc (Body (Some [newestOtherFields]))
                {| volumeData := []; loading := false; isRefreshing := false;
                   error := Some "No transfer data received";
                   console := [] |}))
  = None.
Proof.
  rewrite (proj1 (@count_view_fails_only_without_events utc
                    (Body (Some [newestOtherFields])) _)
                 newestOtherFields [] eq_refl).
  reflexivity.
Defined.

End CountChartFacts.

(* ===================================================================== *)
(** * The volume-per-minute chart, as a whole *)
(* ===================================================================== *)

Module VolumeChartFacts.
Import API UsdcTransferChart JSFacts Spec Sample Notions.
Import UsdcTransferChartFacts.

(** ** Sums of amounts *)

Lemma add_comm (a b : number) : add a b = add b a.
Proof.
  destruct a as [|x], b as [|y]; simpl; try reflexivity. f_equal. ring.
Qed.

Lemma add_assoc (a b c : number) : add a (add b c) = add (add a b) c.
Proof.
  destruct a as [|x], b as [|y], c as [|z]; simpl; try reflexivity.
  f_equal. ring.
Qed.

Lemma add_swap (a b c : number) : add a (add b c) = add b (add a c).
Proof. now rewrite !add_assoc, (add_comm a b). Qed.

Lemma add_0_r (a : number) : add a (ofZ 0) = a.
Proof.
  destruct a as [|x]; simpl; [reflexivity|]. f_equal.
  change (Q2Qc (inject_Z 0)) with 0%Qc. ring.
Qed.

Lemma add_NaN_r (a : number) : add a NaN = NaN.
Proof. now destruct a. Qed.

Lemma sumAmounts_perm (l l' : list number) :
  Permutation l l' -> sumAmounts l = sumAmounts l'.
Proof.
  induction 1 as [| |x y l|]; simpl; try congruence.
  now rewrite !add_assoc, (add_comm x y).
Qed.

Lemma fold_left_add (l : list number) (a : number) :
  fold_left add l a = add a (sumAmounts l).
Proof.
  revert a; induction l as [|x l IH]; intros a; simpl.
  - now rewrite add_0_r.
  - now rewrite IH, add_assoc.
Qed.

Lemma aggregate_sum (acc : list ChartData) (curr : ChartData) :
  sumAmounts (map amount (aggregate acc curr))
  = add (amount curr) (sumAmounts (map amount acc)).
Proof.
  induction acc as [|item acc IH]; [reflexivity|].
  cbn [aggregate]. destruct (String.eqb _ _); cbn [map sumAmounts fold_right
                                                 amount].
  - fold (sumAmounts (map amount acc)).
    rewrite <- add_assoc. apply add_swap.
  - fold (sumAmounts (map amount (aggregate acc curr))).
    fold (sumAmounts (map amount acc)).
    rewrite IH. apply add_swap.
Qed.

Lemma fold_aggregate_sum (cs acc : list ChartData) :
  sumAmounts (map amount (fold_left aggregate cs acc))
  = add (sumAmounts (map amount cs)) (sumAmounts (map amount acc)).
Proof.
  revert acc; induction cs as [|c cs IH]; intros acc.
  - cbn [fold_left map sumAmounts fold_right].
    now rewrite add_comm, add_0_r.
  - cbn [fold_left]. rewrite IH, aggregate_sum.
    cbn [map sumAmounts fold_right]. fold (sumAmounts (map amount cs)).
    rewrite add_swap. apply add_assoc.
Qed.

Section WithHost.
Variable host : Host.

Lemma mapR_formatEvent_amounts (events : list TransferEvent)
      (mapped : list ChartData) :
  mapR (formatEvent host) events = Ok mapped ->
  map amount mapped = map eventAmount events
  /\ map timestamp mapped = map (volumeLabel host) events.
Proof.
  revert mapped; induction events as [|e events IH]; simpl; intros mapped H.
  - injection H as <-. now split.
  - unfold formatEvent at 1, dataSlice2 in H.
    destruct (data e) as [d|] eqn:Ed; cbn [rbind] in H; [|discriminate].
    destruct (mapR (formatEvent host) events) as [cs|]; cbn [rbind] in H;
      [|discriminate].
    injection H as <-. destruct (IH cs eq_refl) as [IH1 IH2].
    cbn [map amount timestamp]. unfold eventAmount at 1, volumeLabel at 1.
    rewrite Ed, IH1, IH2. now split.
Qed.

Lemma formatData_perm (events : list TransferEvent)
      (chart : list ChartData) :
  formatData host events = Ok chart ->
  exists mapped,
    mapR (formatEvent host) events = Ok mapped
    /\ Permutation (fold_left aggregate mapped []) chart.
Proof.
  unfold formatData.
  destruct (mapR (formatEvent host) events) as [mapped|]; simpl;
    [|discriminate].
  intros [= <-]. exists mapped. split; [reflexivity|].
  apply SortFacts.sort_perm.
Qed.

(** No volume is lost and none is counted twice: the points of the chart
    add up to the amounts of the events, as the chart reads them, and no
    two points carry the same minute. *)
Theorem points_add_up (events : list TransferEvent)
        (chart : list ChartData) :
  formatData host events = Ok chart ->
  sumAmounts (map amount chart) = sumAmounts (map eventAmount events)
  /\ NoDup (map timestamp chart).
Proof.
  intros H. destruct (formatData_perm _ H) as (mapped & Hm & Hp).
  split.
  - rewrite <- (sumAmounts_perm (Permutation_map amount Hp)).
    rewrite fold_aggregate_sum. cbn [map sumAmounts fold_right].
    rewrite add_0_r.
    now rewrite (proj1 (mapR_formatEvent_amounts _ Hm)).
  - eapply Permutation_NoDup; [apply Permutation_map, Hp|].
    apply fold_aggregate_NoDup. constructor.
Qed.

(** ** The amount of a point *)

Lemma merged_fold (cs : list ChartData) (c0 : ChartData) :
  fold_left (fun entry c => Some (merged entry c)) cs (Some c0)
  = Some {| timestamp := timestamp c0;
            amount := fold_left add (map amount cs) (amount c0) |}.
Proof.
  revert c0; induction cs as [|c cs IH]; intros c0.
  - now destruct c0.
  - cbn [fold_left map]. now rewrite IH.
Qed.

Lemma bucket_none_filter (label : string) (acc : list ChartData) :
  bucket label acc = None -> volumeBuckets label acc = [].
Proof.
  unfold bucket, volumeBuckets.
  induction acc as [|item acc IH]; simpl; [reflexivity|].
  destruct (String.eqb (timestamp item) label); [discriminate | exact IH].
Qed.

Lemma inMinute_mapped (label : string) (events : list TransferEvent)
      (mapped : list ChartData) :
  mapR (formatEvent host) events = Ok mapped ->
  map amount (volumeBuckets label mapped)
  = map eventAmount (inMinute host label events)
  /\ Forall (fun c => timestamp c = label) (volumeBuckets label mapped).
Proof.
  intros Hm. split.
  - apply (mapR_formatEvent_amounts (inMinute host label events)).
    apply (mapR_formatEvent_filter host label _ Hm).
  - apply Forall_forall. intros c Hc. unfold volumeBuckets in Hc.
    apply filter_In in Hc. now apply String.eqb_eq.
Qed.

Lemma points_of_minute (events : list TransferEvent)
        (chart : list ChartData) (label : string) :
  formatData host events = Ok chart ->
  volumeBuckets label chart
  = match map eventAmount (inMinute host label events) with
    | [] => []
    | first :: rest =>
        [{| timestamp := label; amount := fold_left add rest first |}]
    end.
Proof.
  intros H. destruct (formatData_perm _ H) as (mapped & Hm & Hp).
  destruct (inMinute_mapped label _ Hm) as [Ha Ht].
  pose proof (fold_aggregate_bucket label mapped []) as Hb.
  cbn [bucket find] in Hb. rewrite <- Ha.
  destruct (volumeBuckets label mapped) as [|c0 cs].
  - cbn [fold_left map] in *.
    apply Permutation_nil.
    rewrite <- (bucket_none_filter _ _ Hb).
    apply SortFacts.filter_perm, Hp.
  - cbn [fold_left map] in *. change (Some (merged None c0)) with (Some c0) in Hb.
    rewrite merged_fold in Hb.
    inversion Ht as [|? ? Hc0 _]; subst.
    eapply SortFacts.filter_perm_single; [exact Hp|].
    apply bucket_filter; [apply fold_aggregate_NoDup; constructor|].
    exact Hb.
Qed.

(** A point of the chart carries the amounts of the events of its
    minute, added in the order of the response; a minute without events
    has no point. *)
Theorem point_is_sum_of_its_minute (events : list TransferEvent)
        (chart : list ChartData) (label : string) :
  formatData host events = Ok chart ->
  volumeBuckets label chart
  = match map eventAmount (inMinute host label events) with
    | [] => []
    | first :: rest =>
        [{| timestamp := label; amount := fold_left add rest first |}]
    end.
Proof. apply points_of_minute. Qed.

Lemma sumAmounts_NaN (l : list number) : In NaN l -> sumAmounts l = NaN.
Proof.
  induction l as [|x l IH]; [intros []|].
  intros [->|H]; cbn [sumAmounts fold_right].
  - reflexivity.
  - fold (sumAmounts l). rewrite IH by exact H. apply add_NaN_r.
Qed.

(** One unreadable data field spoils its minute: when the hex digits of
    an event do not parse, the point of its minute is [NaN], whatever the
    other events of that minute move. *)
Theorem unreadable_amount_spoils_minute (events : list TransferEvent)
        (chart : list ChartData) (e : TransferEvent) :
  formatData host events = Ok chart ->
  In e events ->
  eventAmount e = NaN ->
  volumeBuckets (volumeLabel host e) chart
  = [{| timestamp := volumeLabel host e; amount := NaN |}].
Proof.
  intros H Hin Hnan.
  rewrite (points_of_minute _ _ H).
  assert (Hl : In NaN (map eventAmount
                         (inMinute host (volumeLabel host e) events))).
  { rewrite <- Hnan. apply in_map. apply filter_In. split; [exact Hin|].
    apply String.eqb_refl. }
  destruct (map eventAmount (inMinute host (volumeLabel host e) events))
    as [|first rest]; [destruct Hl|].
  rewrite fold_left_add.
  change (add first (sumAmounts rest)) with (sumAmounts (first :: rest)).
  now rewrite sumAmounts_NaN.
Qed.

(** ** The order of the points *)

Lemma aggregate_label_origin (acc : list ChartData) (curr : ChartData)
      (k : string) :
  In k (map timestamp (aggregate acc curr)) ->
  In k (map timestamp acc) \/ k = timestamp curr.
Proof.
  rewrite aggregate_keys. destruct (existsb _ _); [now left|].
  intros H. apply in_app_or in H. destruct H as [H|[H|[]]]; auto.
Qed.

Lemma fold_aggregate_label_origin (cs acc : list ChartData) (k : string) :
  In k (map timestamp (fold_left aggregate cs acc)) ->
  In k (map timestamp acc) \/ In k (map timestamp cs).
Proof.
  revert acc; induction cs as [|c cs IH]; intros acc H; [now left|].
  cbn [fold_left] in H. apply IH in H. destruct H as [H|H].
  - apply aggregate_label_origin in H. destruct H as [H|H]; [now left|].
    right. left. now symmetry.
  - right. now right.
Qed.

Lemma notAfter_trans (a b c : ChartData) :
  notAfter host a b -> notAfter host b c -> notAfter host a c.
Proof.
  intros (x & y & Hx & Hy & Hxy) (y' & z & Hy' & Hz & Hyz).
  rewrite Hy in Hy'. injection Hy' as <-.
  exists x, z. split; [exact Hx|]. split; [exact Hz|].
  eapply Qcle_trans; eauto.
Qed.

(** The points come in the order of the times the host's date parser
    reads on their labels, whenever it reads a time on the label of every
    event. *)
Theorem points_in_parsed_order (events : list TransferEvent)
        (chart : list ChartData) :
  formatData host events = Ok chart ->
  (forall e, In e events ->
             exists q, dateParse host
                         ("1970/01/01 " ++ volumeLabel host e)%string
                       = Fin q) ->
  StronglySorted (notAfter host) chart.
Proof.
  intros H Hparse. unfold formatData in H.
  destruct (mapR (formatEvent host) events) as [mapped|] eqn:Em;
    cbn [rbind] in H; [|discriminate].
  injection H as <-.
  apply (@SortFacts.sort_sorted _ (chronological host)
           (fun c => exists q, parsedTime host c = Fin q)
           (notAfter host) notAfter_trans).
  - intros a b [x Hx] [y Hy] Hs. exists x, y.
    split; [exact Hx|]. split; [exact Hy|].
    unfold chronological in Hs. unfold parsedTime in Hx, Hy.
    rewrite Hx, Hy, sign_sub in Hs. now apply Qcle_alt.
  - intros a b [x Hx] [y Hy] Hs. exists y, x.
    split; [exact Hy|]. split; [exact Hx|].
    unfold chronological in Hs. unfold parsedTime in Hx, Hy.
    rewrite Hx, Hy, sign_sub in Hs.
    apply Qclt_le_weak. now apply Qcgt_alt in Hs.
  - apply Forall_forall. intros c Hc.
    assert (Hk : In (timestamp c)
                    (map timestamp (fold_left aggregate mapped [])))
      by now apply in_map.
    apply fold_aggregate_label_origin in Hk. destruct Hk as [[]|Hk].
    rewrite (proj2 (mapR_formatEvent_amounts _ Em)) in Hk.
    apply in_map_iff in Hk. destruct Hk as (e & He & Hin).
    destruct (Hparse e Hin) as [q Hq]. exists q.
    unfold parsedTime. now rewrite <- He.
Qed.

(** ** When the view reports an error *)

Lemma mapR_formatEvent_ok (events : list TransferEvent) :
  Forall (fun e => data e <> None) events ->
  exists mapped, mapR (formatEvent host) events = Ok mapped.
Proof.
  induction 1 as [|e events He _ [mapped IH]]; [now exists []|].
  cbn [mapR]. unfold formatEvent at 1, dataSlice2.
  destruct (data e) as [d|]; [|congruence].
  cbn [rbind]. rewrite IH. cbn [rbind]. eauto.
Qed.

Lemma lacksData_dec (events : list Event) :
  Exists lacksData events \/ Forall (fun e => data e <> None) events.
Proof.
  induction events as [|e events [IH|IH]].
  - right. constructor.
  - left. now right.
  - destruct (data e) as [d|] eqn:E.
    + right. constructor; [congruence | exact IH].
    + left. now left.
Qed.

Lemma getUsdcTransfers_ready (e : TransferEvent) (events : list TransferEvent)
      (chart : list ChartData) (s : State) :
  formatData host (e :: events) = Ok chart ->
  getUsdcTransfers host (Body (Some (e :: events))) s
  = (Ok tt, {| chartData := chart; loading := false; error := None;
               isRefreshing := false; console := console s |}).
Proof.
  intros H.
  unfold getUsdcTransfers, Effect.tryCatchFinally, Effect.bind, Effect.await,
    Effect.ret, Effect.lift.
  cbn -[formatData].
  match goal with
  | |- context [match ?t with Ok _ => _ | Throw _ => _ end] =>
      replace t with (@Ok (list ChartData) chart) by (symmetry; exact H)
  end.
  reflexivity.
Qed.

(** A response with events, each with a data field, fills the chart and
    clears an earlier error, whether or not the digits parse.  So the view
    ends with an error only if the call rejected, brought no event, or
    brought an event without data. *)
Theorem volume_view_fails_only_on (fetched : Fetched) (s : State) :
  (forall e events,
      fetched = Body (Some (e :: events)) ->
      Forall (fun e => data e <> None) (e :: events) ->
      exists chart,
        formatData host (e :: events) = Ok chart
        /\ getUsdcTransfers host fetched s
           = (Ok tt, {| chartData := chart; loading := false; error := None;
                        isRefreshing := false; console := console s |}))
  /\ (error (snd (getUsdcTransfers host fetched s)) <> None ->
      NetworkError fetched \/ EmptyResponse fetched
      \/ MalformedEvent lacksData fetched).
Proof.
  assert (Hready : forall e events,
             Forall (fun e => data e <> None) (e :: events) ->
             exists chart,
               formatData host (e :: events) = Ok chart
               /\ getUsdcTransfers host (Body (Some (e :: events))) s
                  = (Ok tt, {| chartData := chart; loading := false;
                               error := None; isRefreshing := false;
                               console := console s |})).
  { intros e events Hd. destruct (mapR_formatEvent_ok Hd) as [mapped Hm].
    assert (Hf : formatData host (e :: events)
                 = Ok (sort (chronological host)
                            (fold_left aggregate mapped [])))
      by (unfold formatData; now rewrite Hm).
    eexists. split; [exact Hf|]. now apply getUsdcTransfers_ready. }
  split.
  - intros e events ->. apply Hready.
  - destruct fetched as [x | [[|e events]|]]; intros H.
    + left. now exists x.
    + right. left. now right.
    + destruct (lacksData_dec (e :: events)) as [Hex|Hall].
      * right. right. exists (e :: events). now split.
      * destruct (Hready e events Hall) as (chart & _ & Hrun).
        rewrite Hrun in H. now contradiction H.
    + right. left. now left.
Qed.

(** A failure leaves the chart on the page: after a response without
    events, or with an event without data, the header shows the error
    and the card still shows what the state held before, the earlier
    chart or the placeholder of an empty one. *)
Theorem volume_view_keeps_earlier_chart (fetched : Fetched) (s : State) :
  EmptyResponse fetched \/ MalformedEvent lacksData fetched ->
  let s' := snd (getUsdcTransfers host fetched s) in
  (exists msg, msg <> "" /\ UsdcTransferChartView.errorShown s' = Some msg)
  /\ UsdcTransferChartView.renderContent s'
     = match chartData s with
       | [] => UsdcTransferChartView.NoDataText
       | _ => UsdcTransferChartView.LineChart (chartData s)
       end.
Proof.
  intros [H|H]; cbv zeta.
  - rewrite (LifecycleFacts.chart_empty host s H). split.
    + exists "No transfer data received". split; [discriminate|reflexivity].
    + reflexivity.
  - rewrite (LifecycleFacts.chart_malformed host s H). split.
    + eexists. split; [|reflexivity]. discriminate.
    + reflexivity.
Qed.
End WithHost.

Lemma points_add_up_witness :
  exists chart,
    formatData utc [newest; minuteLater; older] = Ok chart
    /\ sumAmounts (map amount chart)
       = sumAmounts (map eventAmount [newest; minuteLater; older]).
Proof.
  eexists. split; [reflexivity|].
  eapply (proj1 (@points_add_up utc [newest; minuteLater; older] _ eq_refl)).
Defined.

Lemma point_is_sum_of_its_minute_witness :
  exists chart,
    formatData utc [newest; minuteLater; older] = Ok chart
    /\ volumeBuckets "22:14" chart
       = [{| timestamp := "22:14"; amount := chartAmount "0x2DC6C0" |}].
Proof.
  eexists. split; [reflexivity|].
  exact (@point_is_sum_of_its_minute utc [newest; minuteLater; older] _
           "22:14" eq_refl).
Defined.

Lemma unreadable_amount_spoils_minute_witness :
  exists chart,
    formatData utc [newest; minuteLater; Sample2.noDigits] = Ok chart
    /\ volumeBuckets "22:13" chart
       = [{| timestamp := "22:13"; amount := NaN |}].
Proof.
  eexists. split; [reflexivity|].
  apply (@unreadable_amount_spoils_minute utc
           [newest; minuteLater; Sample2.noDigits] _ Sample2.noDigits eq_refl).
  - right. right. now left.
  - reflexivity.
Defined.

Lemma points_in_parsed_order_witness :
  exists chart,
    formatData utc Sample2.morning = Ok chart
    /\ map timestamp chart = ["08:59"; "09:01"; "09:05"]
    /\ StronglySorted (notAfter utc) chart.
Proof.
  eexists. split; [reflexivity|]. split; [reflexivity|].
  apply (@points_in_parsed_order utc Sample2.morning _ eq_refl).
  intros e [<-|[<-|[<-|[]]]]; eexists; reflexivity.
Defined.

Lemma volume_view_fails_only_on_witness :
  exists chart,
    getUsdcTransfers utc (Body (Some [Sample2.noDigits]))
      {| chartData := []; loading := false;
         error := Some "No transfer data received";
         isRefreshing := false; console := [] |}
    = (Ok tt, {| chartData := chart; loading := false; error := None;
                 isRefreshing := false; console := [] |}).
Proof.
  destruct (proj1 (@volume_view_fails_only_on utc
                     (Body (Some [Sample2.noDigits]))
                     {| chartData := []; loading := false;
                        error := Some "No transfer data received";
                        isRefreshing := false; console := [] |})
                  Sample2.noDigits [] eq_refl)
    as (chart & _ & H).
  - repeat constructor. discriminate.
  - exists chart. exact H.
Defined.

Lemma volume_view_keeps_earlier_chart_witness :
  UsdcTransferChartView.renderContent
    (snd (getUsdcTransfers utc (Body (Some []))
            {| chartData := [{| timestamp := "22:13"; amount := ofZ 3 |}];
               loading := false; error := None; isRefreshing := false;
               console := [] |}))
  = UsdcTransferChartView.LineChart
      [{| timestamp := "22:13"; amount := ofZ 3 |}].
Proof.
  exact (proj2 (@volume_view_keeps_earlier_chart utc (Body (Some []))
                  {| chartData := [{| timestamp := "22:13";
                                      amount := ofZ 3 |}];
                     loading := false; error := None; isRefreshing := false;
                     console := [] |}
                  (or_introl (or_intror eq_refl)))).
Defined.

End VolumeChartFacts.

(* ===================================================================== *)
(** * The top-wallets table, as a whole *)
(* ===================================================================== *)

Module WalletFacts.
Import API TopUsdcWallets JSFacts Spec Sample Notions.
Import TopUsdcWalletsFacts.

(** ** The map the aggregator builds *)

Lemma set_set (key : string) (w w0 : WalletSummary) (m : WalletMap) :
  set key w (set key w0 m) = set key w m.
Proof.
  induction m as [|[k w'] m IH]; simpl.
  - now rewrite String.eqb_refl.
  - destruct (String.eqb k key) eqn:E; simpl; rewrite E; [reflexivity|].
    now rewrite IH.
Qed.

Lemma set_get (key : string) (w : WalletSummary) (m : WalletMap) :
  get key m = Some w -> set key w m = m.
Proof.
  induction m as [|[k w'] m IH]; simpl; [discriminate|].
  destruct (String.eqb k key); [now intros [= ->]|].
  intros H. now rewrite IH.
Qed.

(** Both steps of [updateWallet] amount to one write of the credited
    summary. *)
Lemma updateWallet_set (addr : string) (amount : number) (m : WalletMap) :
  updateWallet addr amount m
  = set addr (credit amount (summaryOf addr m)) m.
Proof.
  unfold updateWallet, summaryOf. rewrite has_get.
  destruct (get addr m) as [w|] eqn:E; cbn [negb].
  - now rewrite E.
  - rewrite get_set_same. apply set_set.
Qed.

Lemma set_keys (key : string) (w : WalletSummary) (m : WalletMap) :
  map fst (set key w m)
  = if has key m then map fst m else map fst m ++ [key].
Proof.
  induction m as [|[k w'] m IH]; simpl; [reflexivity|].
  destruct (String.eqb k key); simpl; [reflexivity|].
  rewrite IH. now destruct (has key m).
Qed.

Lemma has_In (key : string) (m : WalletMap) :
  has key m = false -> ~ In key (map fst m).
Proof.
  induction m as [|[k w] m IH]; simpl; [tauto|].
  destruct (String.eqb_spec k key); [discriminate|].
  intros H [E|Hin]; [congruence | now apply IH].
Qed.

Lemma set_NoDup (key : string) (w : WalletSummary) (m : WalletMap) :
  NoDup (map fst m) -> NoDup (map fst (set key w m)).
Proof.
  intros H. rewrite set_keys. destruct (has key m) eqn:E; [exact H|].
  apply NoDup_app; [exact H | repeat constructor; intros [] |].
  intros k Hk [Hl|[]]. subst k. now apply (has_In _ _ E).
Qed.

Lemma set_Forall (P : string * WalletSummary -> Prop) (key : string)
      (w : WalletSummary) (m : WalletMap) :
  P (key, w) -> Forall P m -> Forall P (set key w m).
Proof.
  intros Hw. induction 1 as [|[k w'] m Hk Hm IH]; simpl.
  - repeat constructor. exact Hw.
  - destruct (String.eqb_spec k key) as [->|]; constructor; auto.
Qed.

Lemma get_In (key : string) (w : WalletSummary) (m : WalletMap) :
  get key m = Some w -> In (key, w) m.
Proof.
  induction m as [|[k w'] m IH]; simpl; [discriminate|].
  destruct (String.eqb_spec k key) as [->|]; [intros [= ->]; now left|].
  intros H. right. now apply IH.
Qed.

Lemma summaryOf_address (addr : string) (m : WalletMap) :
  Forall consistent m -> address (summaryOf addr m) = addr.
Proof.
  intros H. unfold summaryOf. destruct (get addr m) as [w|] eqn:E;
    [|reflexivity].
  apply get_In in E. rewrite Forall_forall in H. now apply (H _ E).
Qed.

Lemma updateWallet_consistent (addr : string) (amount : number)
      (m : WalletMap) :
  NoDup (map fst m) /\ Forall consistent m ->
  NoDup (map fst (updateWallet addr amount m))
  /\ Forall consistent (updateWallet addr amount m).
Proof.
  intros [Hnd Hc]. rewrite updateWallet_set. split.
  - now apply set_NoDup.
  - apply set_Forall; [|exact Hc].
    unfold consistent. cbn [fst snd credit address transferCount totalAmount
                              averageAmount].
    split; [now apply summaryOf_address|]. split; [lia | reflexivity].
Qed.

Lemma processEvent_inv (m m' : WalletMap) (event : TransferEvent) :
  processEvent m event = Ok m' ->
  exists from to,
    m' = updateWallet to (movedAmount event)
           (updateWallet from (movedAmount event) m).
Proof.
  unfold processEvent, dataSlice2, topicSlice26, movedAmount.
  destruct (data event); cbn [rbind]; [|discriminate].
  destruct (nth_error (topics event) 1); cbn [rbind]; [|discriminate].
  destruct (nth_error (topics event) 2); cbn [rbind]; [|discriminate].
  intros [= <-]. eauto.
Qed.

Lemma forEachR_consistent (events : list TransferEvent) (m : WalletMap) :
  forEachR processEvent [] events = Ok m ->
  NoDup (map fst m) /\ Forall consistent m.
Proof.
  assert (G : forall events m0 m,
             NoDup (map fst m0) /\ Forall consistent m0 ->
             forEachR processEvent m0 events = Ok m ->
             NoDup (map fst m) /\ Forall consistent m).
  { clear. intros events. induction events as [|e events IH];
      intros m0 m H0 H.
    - simpl in H. now injection H as <-.
    - cbn [forEachR] in H.
      destruct (processEvent m0 e) as [m1|] eqn:E; cbn [rbind] in H;
        [|discriminate].
      destruct (processEvent_inv _ _ E) as (from & to & ->).
      eapply IH; [|exact H].
      now apply updateWallet_consistent, updateWallet_consistent. }
  apply G. split; constructor.
Qed.

(** Whatever the batch, the map the aggregator ends with holds each
    wallet once, under its own address, with a count of one transfer at
    least and an average equal to its total over its count. *)
Theorem wallet_map_consistent (events : list TransferEvent) (m : WalletMap) :
  forEachR processEvent [] events = Ok m ->
  NoDup (map fst m) /\ Forall consistent m.
Proof. apply forEachR_consistent. Qed.

(** ** What the batch adds up to *)

Lemma summaryOf_cons (addr k : string) (w : WalletSummary) (m : WalletMap) :
  summaryOf addr ((k, w) :: m)
  = if String.eqb k addr then w else summaryOf addr m.
Proof. unfold summaryOf. simpl. now destruct (String.eqb k addr). Qed.

Lemma updateWallet_counts (addr : string) (amount : number) (m : WalletMap) :
  list_sum (walletCounts (updateWallet addr amount m))
  = S (list_sum (walletCounts m)).
Proof.
  rewrite updateWallet_set. unfold walletCounts, values.
  induction m as [|[k w] m IH]; [reflexivity|].
  rewrite summaryOf_cons. cbn [set].
  destruct (String.eqb k addr);
    cbn [map snd list_sum fold_right transferCount credit].
  - lia.
  - fold (list_sum (map transferCount
            (map snd (set addr (credit amount (summaryOf addr m)) m)))).
    fold (list_sum (map transferCount (map snd m))).
    rewrite IH. lia.
Qed.

Lemma updateWallet_totals (addr : string) (amount : number) (m : WalletMap) :
  sumAmounts (walletTotals (updateWallet addr amount m))
  = add amount (sumAmounts (walletTotals m)).
Proof.
  rewrite updateWallet_set. unfold walletTotals, values.
  induction m as [|[k w] m IH].
  - cbn. destruct amount as [|q]; [reflexivity|]. cbn. f_equal.
    change (Q2Qc (inject_Z 0)) with 0%Qc. ring.
  - rewrite summaryOf_cons. cbn [set].
    destruct (String.eqb k addr);
      cbn [map snd sumAmounts fold_right totalAmount credit].
    + rewrite <- VolumeChartFacts.add_assoc. apply VolumeChartFacts.add_swap.
    + fold (sumAmounts (map totalAmount
              (map snd (set addr (credit amount (summaryOf addr m)) m)))).
      fold (sumAmounts (map totalAmount (map snd m))).
      rewrite IH. apply VolumeChartFacts.add_swap.
Qed.

Lemma updateWallet_length (addr : string) (amount : number) (m : WalletMap) :
  (List.length (updateWallet addr amount m) <= S (List.length m))%nat.
Proof.
  rewrite updateWallet_set.
  generalize (credit amount (summaryOf addr m)) as w0. intros w0.
  induction m as [|[k w] m IH]; simpl; [lia|].
  destruct (String.eqb k addr); simpl; lia.
Qed.

(** Each event counts twice, once for its sender and once for its
    receiver: the counts of the map add up to twice the number of events,
    its totals to twice the amounts moved, and it holds two wallets per
    event at most. *)
Theorem wallets_add_up (events : list TransferEvent) (m : WalletMap) :
  forEachR processEvent [] events = Ok m ->
  list_sum (walletCounts m) = (2 * List.length events)%nat
  /\ sumAmounts (walletTotals m)
     = add (sumAmounts (map movedAmount events))
           (sumAmounts (map movedAmount events))
  /\ (List.length m <= 2 * List.length events)%nat.
Proof.
  assert (G : forall events m0 m,
             forEachR processEvent m0 events = Ok m ->
             list_sum (walletCounts m)
             = (2 * List.length events + list_sum (walletCounts m0))%nat
             /\ sumAmounts (walletTotals m)
                = add (add (sumAmounts (map movedAmount events))
                           (sumAmounts (map movedAmount events)))
                      (sumAmounts (walletTotals m0))
             /\ (List.length m
                 <= 2 * List.length events + List.length m0)%nat).
  { clear. intros events. induction events as [|e events IH]; intros m0 m H.
    - simpl in H. injection H as <-. cbn [map sumAmounts fold_right].
      split; [reflexivity|]. split; [|simpl; lia].
      destruct (sumAmounts (walletTotals m0)) as [|q]; [reflexivity|].
      cbn. f_equal. change (Q2Qc (inject_Z 0)) with 0%Qc. ring.
    - cbn [forEachR] in H.
      destruct (processEvent m0 e) as [m1|] eqn:E; cbn [rbind] in H;
        [|discriminate].
      destruct (processEvent_inv _ _ E) as (from & to & ->).
      destruct (IH _ _ H) as (H1 & H2 & H3).
      rewrite !updateWallet_counts in H1.
      rewrite !updateWallet_totals in H2.
      pose proof (updateWallet_length to (movedAmount e)
                    (updateWallet from (movedAmount e) m0)).
      pose proof (updateWallet_length from (movedAmount e) m0).
      split; [cbn [List.length]; lia|]. split; [|cbn [List.length]; lia].
      rewrite H2. cbn [map sumAmounts fold_right].
      fold (sumAmounts (map movedAmount events)).
      generalize (sumAmounts (map movedAmount events)) as S.
      generalize (sumAmounts (walletTotals m0)) as T.
      generalize (movedAmount e) as a.
      intros [|a] [|T] [|S]; cbn; try reflexivity. f_equal. ring. }
  intros H. destruct (G _ _ _ H) as (H1 & H2 & H3).
  split; [simpl in H1; lia|]. split; [|simpl in H3; lia].
  rewrite H2. cbn [walletTotals values map sumAmounts fold_right].
  apply VolumeChartFacts.add_0_r.
Qed.


(** ** The rows of the table *)

Lemma NoDup_firstn (A : Type) (n : nat) (l : list A) :
  NoDup l -> NoDup (firstn n l).
Proof.
  intros H. rewrite <- (firstn_skipn n l) in H.
  now apply NoDup_app_remove_r in H.
Qed.

Lemma consistent_addresses (m : WalletMap) :
  Forall consistent m -> map address (values m) = map fst m.
Proof.
  unfold values. induction 1 as [|[k w] m (Hk & _) _ IH]; [reflexivity|].
  simpl in *. now rewrite Hk, IH.
Qed.

(** The rows of the table after a batch: the ten first of the wallets
    sorted by total, or all of them when they are ten or fewer; no wallet
    twice; and, the totals being numbers, no row before a row of a larger
    total and no wallet left out that has moved more than a row. *)
Theorem table_rows (events : list TransferEvent) (m : WalletMap) (s : State) :
  forEachR processEvent [] events = Ok m ->
  events <> [] ->
  let rows := walletStats (snd (getTopWallets (Body (Some events)) s)) in
  List.length rows = Nat.min 10 (List.length m)
  /\ incl rows (values m)
  /\ NoDup (map address rows)
  /\ ((List.length m <= 10)%nat -> Permutation (values m) rows)
  /\ (Forall finiteTotal (values m) ->
      StronglySorted atLeast rows
      /\ forall w w', In w rows -> In w' (values m) -> ~ In w' rows ->
                      atLeast w w').
Proof.
  intros Hm Hne. rewrite (getTopWallets_ok s Hne Hm). cbn [snd walletStats].
  unfold sortedWallets. set (sorted := sort byVolume (values m)).
  assert (Hperm : Permutation (values m) sorted)
    by apply SortFacts.sort_perm.
  assert (Hlen : List.length sorted = List.length m).
  { unfold sorted. rewrite SortFacts.sort_length. unfold values.
    apply length_map. }
  assert (Hsplit : sorted = firstn 10 sorted ++ skipn 10 sorted)
    by (symmetry; apply firstn_skipn).
  destruct (forEachR_consistent _ Hm) as [Hnd Hc].
  split; [now rewrite length_firstn, Hlen|]. split.
  { intros w Hw. apply (Permutation_in _ (Permutation_sym Hperm)).
    rewrite Hsplit. apply in_or_app. now left. }
  split.
  { rewrite <- firstn_map. apply NoDup_firstn.
    eapply Permutation_NoDup; [apply Permutation_map, Hperm|].
    now rewrite consistent_addresses. }
  split.
  { intros Hle. rewrite firstn_all2 by lia. exact Hperm. }
  intros Hfin.
  pose proof (sort_byVolume_sorted Hfin) as Hs. fold sorted in Hs.
  rewrite Hsplit in Hs. destruct (StronglySorted_app _ _ Hs) as [Htop Hcross].
  split; [exact Htop|].
  intros w w' Hw Hw' Hout. apply Hcross; [exact Hw|].
  apply (Permutation_in _ Hperm) in Hw'. rewrite Hsplit in Hw'.
  apply in_app_or in Hw'. tauto.
Qed.

(** ** When the view reports an error *)

Lemma processEvent_ok (m : WalletMap) (event : TransferEvent) :
  ~ undecodable event -> exists m', processEvent m event = Ok m'.
Proof.
  unfold undecodable, lacksData, lacksAddress, processEvent, dataSlice2,
    topicSlice26.
  intros H.
  destruct (data event); [|tauto]. cbn [rbind].
  destruct (nth_error (topics event) 1); [|tauto]. cbn [rbind].
  destruct (nth_error (topics event) 2); [|tauto]. cbn [rbind]. eauto.
Qed.

Lemma forEachR_processEvent_ok (events : list TransferEvent) (m : WalletMap) :
  Forall (fun e => ~ undecodable e) events ->
  exists m', forEachR processEvent m events = Ok m'.
Proof.
  intros H. revert m. induction H as [|e events He _ IH]; intros m.
  - now exists m.
  - cbn [forEachR]. destruct (processEvent_ok m He) as [m1 ->].
    cbn [rbind]. apply IH.
Qed.

Lemma undecodable_dec (events : list Event) :
  Exists undecodable events \/ Forall (fun e => ~ undecodable e) events.
Proof.
  induction events as [|e events [IH|IH]].
  - right. constructor.
  - left. now right.
  - destruct (data e) eqn:Ed; [|left; left; now left].
    destruct (nth_error (topics e) 1) eqn:E1;
      [|left; left; right; now left].
    destruct (nth_error (topics e) 2) eqn:E2;
      [|left; left; right; now right].
    right. constructor; [|exact IH].
    unfold undecodable, lacksData, lacksAddress.
    intros [H|[H|H]]; congruence.
Qed.

(** A response whose events all have a data field and both address
    topics fills the table and clears an earlier error.  So the view ends
    with an error only if the call rejected, brought no event, or brought
    an event it cannot decode. *)
Theorem wallets_view_fails_only_on (fetched : Fetched) (s : State) :
  (forall e events,
      fetched = Body (Some (e :: events)) ->
      Forall (fun e => ~ undecodable e) (e :: events) ->
      exists m,
        forEachR processEvent [] (e :: events) = Ok m
        /\ getTopWallets fetched s
           = (Ok tt, {| walletStats := sortedWallets m; loading := false;
                        isRefreshing := false; error := None;
                        console := console s |}))
  /\ (error (snd (getTopWallets fetched s)) <> None ->
      NetworkError fetched \/ EmptyResponse fetched
      \/ MalformedEvent undecodable fetched).
Proof.
  assert (Hready : forall e events,
             Forall (fun e => ~ undecodable e) (e :: events) ->
             exists m,
               forEachR processEvent [] (e :: events) = Ok m
               /\ getTopWallets (Body (Some (e :: events))) s
                  = (Ok tt, {| walletStats := sortedWallets m;
                               loading := false; isRefreshing := false;
                               error := None; console := console s |})).
  { intros e events Hd.
    destruct (forEachR_processEvent_ok [] Hd) as [m Hm].
    exists m. split; [exact Hm|]. apply getTopWallets_ok; [discriminate|].
    exact Hm. }
  split.
  - intros e events ->. apply Hready.
  - destruct fetched as [x | [[|e events]|]]; intros H.
    + left. now exists x.
    + right. left. now right.
    + destruct (undecodable_dec (e :: events)) as [Hex|Hall].
      * right. right. exists (e :: events). now split.
      * destruct (Hready e events Hall) as (m & _ & Hrun).
        rewrite Hrun in H. now contradiction H.
    + right. left. now left.
Qed.

(** ** Amounts that do not parse *)

Lemma updateWallet_spoiled (a addr : string) (amount : number)
      (m : WalletMap) :
  spoiled a m -> spoiled a (updateWallet addr amount m).
Proof.
  intros (w & Hg & Ht & Ha). unfold spoiled.
  destruct (String.eqb_spec a addr) as [->|Hne].
  - rewrite updateWallet_same. unfold summaryOf. rewrite Hg.
    eexists. split; [reflexivity|]. cbn [credit totalAmount averageAmount].
    rewrite Ht. now split.
  - rewrite updateWallet_other by exact Hne. eauto.
Qed.

Lemma updateWallet_NaN (addr : string) (m : WalletMap) :
  spoiled addr (updateWallet addr NaN m).
Proof.
  unfold spoiled. rewrite updateWallet_same. eexists.
  split; [reflexivity|]. cbn [credit totalAmount averageAmount].
  rewrite VolumeChartFacts.add_NaN_r. now split.
Qed.

Lemma forEachR_spoiled (a : string) (events : list TransferEvent)
      (m m' : WalletMap) :
  spoiled a m -> forEachR processEvent m events = Ok m' -> spoiled a m'.
Proof.
  revert m; induction events as [|e events IH]; intros m Hs H.
  - simpl in H. now injection H as <-.
  - cbn [forEachR] in H.
    destruct (processEvent m e) as [m1|] eqn:E; cbn [rbind] in H;
      [|discriminate].
    destruct (processEvent_inv _ _ E) as (from & to & ->).
    eapply IH; [|exact H]. now apply updateWallet_spoiled, updateWallet_spoiled.
Qed.

(** An amount that does not parse sticks to both wallets of its event:
    from that event on and to the end of the batch, the total and the
    average of the sender and of the receiver are [NaN]. *)
Theorem unreadable_amount_sticks (m m' : WalletMap) (e : TransferEvent)
        (later : list TransferEvent) (from to : string) :
  moves e from to NaN ->
  forEachR processEvent m (e :: later) = Ok m' ->
  spoiled from m' /\ spoiled to m'.
Proof.
  intros Hmoves H. cbn [forEachR] in H.
  rewrite (processEvent_moves m Hmoves) in H. cbn [rbind] in H.
  split; eapply forEachR_spoiled; try exact H.
  - apply updateWallet_spoiled, updateWallet_NaN.
  - apply updateWallet_NaN.
Qed.

Lemma wallet_map_consistent_witness :
  exists m,
    forEachR processEvent [] chain = Ok m
    /\ NoDup (map fst m) /\ Forall consistent m.
Proof.
  eexists. split; [reflexivity|].
  apply (@wallet_map_consistent chain _ eq_refl).
Defined.

Lemma wallets_add_up_witness :
  exists m,
    forEachR processEvent [] chain = Ok m
    /\ list_sum (walletCounts m) = 28%nat.
Proof.
  eexists. split; [reflexivity|].
  apply (proj1 (@wallets_add_up chain _ eq_refl)).
Defined.

Lemma table_rows_witness :
  exists m,
    forEachR processEvent [] [aSends10; aSends20; aReceives5] = Ok m
    /\ List.length
         (walletStats
            (snd (getTopWallets (Body (Some [aSends10; aSends20; aReceives5]))
                                initial)))
       = Nat.min 10 (List.length m).
Proof.
  eexists. split; [reflexivity|].
  refine (proj1 (@table_rows [aSends10; aSends20; aReceives5] _ initial
                   eq_refl _)).
  discriminate.
Defined.

Lemma wallets_view_fails_only_on_witness :
  exists m,
    getTopWallets (Body (Some [Sample2.noDigits]))
      {| walletStats := []; loading := false; isRefreshing := false;
         error := Some "No transfer data received"; console := [] |}
    = (Ok tt, {| walletStats := sortedWallets m; loading := false;
                 isRefreshing := false; error := None; console := [] |}).
Proof.
  destruct (proj1 (wallets_view_fails_only_on
                     (Body (Some [Sample2.noDigits]))
                     {| walletStats := []; loading := false;
                        isRefreshing := false;
                        error := Some "No transfer data received";
                        console := [] |})
                  Sample2.noDigits [] eq_refl)
    as (m & _ & H).
  - repeat constructor. unfold undecodable, lacksData, lacksAddress.
    intros [H|[H|H]]; discriminate.
  - exists m. exact H.
Defined.

Lemma unreadable_amount_sticks_witness :
  exists m,
    forEachR processEvent [] [Sample2.noDigits; aSends10] = Ok m
    /\ spoiled ("0x" ++ walletOf "08") m.
Proof.
  eexists. split; [reflexivity|].
  apply (@unreadable_amount_sticks [] _ Sample2.noDigits [aSends10]
           ("0x" ++ walletOf "08")%string ("0x" ++ walletOf "09")%string).
  - do 3 eexists. repeat split; reflexivity.
  - reflexivity.
Defined.

End WalletFacts.

(* ===================================================================== *)
(** * The recent-transfers table, as a whole *)
(* ===================================================================== *)

Module TableFacts.
Import API UsdcTransfers UsdcTransfersView Markup JSFacts Spec Sample Notions.
Import UsdcTransfersFacts.

(** ** A row *)

Lemma shortened_topic (topic : string) :
  String.length topic = 66%nat ->
  shortened (decodeAddress topic)
  = ("0x" ++ substring 26 4 topic ++ "..." ++ substring 62 4 topic)%string.
Proof.
  intros H.
  do 66 (destruct topic as [|? topic]; [discriminate H|]).
  destruct topic; [reflexivity | discriminate H].
Qed.

(** The row of a transfer that has its data and two topics of 66
    characters: each address shows as [0x], its first 4 digits, three
    dots and its last 4 digits, the amount as [decodeAmount] writes it. *)
Theorem row_of_transfer (host : Host) (locale : Locale)
        (transfer : Transfer) (d from to : string) :
  data transfer = Some d ->
  nth_error (topics transfer) 1 = Some from ->
  nth_error (topics transfer) 2 = Some to ->
  String.length from = 66%nat ->
  String.length to = 66%nat ->
  renderRow host locale transfer
  = Ok {| fromCell :=
            ("0x" ++ substring 26 4 from ++ "..." ++ substring 62 4 from)%string;
          toCell :=
            ("0x" ++ substring 26 4 to ++ "..." ++ substring 62 4 to)%string;
          amountCell := decodeAmount host d;
          timeCell :=
            dateToLocaleString locale (block_timestamp transfer) |}.
Proof.
  intros Hd H1 H2 L1 L2. unfold renderRow, addressCell, amountText.
  rewrite Hd, H1, H2. cbn [rbind].
  now rewrite (shortened_topic _ L1), (shortened_topic _ L2).
Qed.

Lemma row_of_transfer_witness :
  renderRow utc Sample2.plainLocale newest
  = Ok {| fromCell := "0x1111...1111";
          toCell := "0x2222...2222";
          amountCell := "1.00";
          timeCell := "1700000012" |}.
Proof.
  exact (@row_of_transfer utc Sample2.plainLocale newest _ _ _
           eq_refl eq_refl eq_refl eq_refl eq_refl).
Defined.


(** ** What the fetch stores and the table cannot render *)

Lemma compareAmount_hasData (a b : Transfer) :
  data a <> None -> data b <> None -> exists v, compareAmount a b = Ok v.
Proof.
  intros Ha Hb. unfold compareAmount, amountOf, dataSlice2.
  destruct (data a); [|congruence]. destruct (data b); [|congruence].
  cbn [rbind]. eauto.
Qed.

Lemma insertR_hasData (x : Transfer) (l : list Transfer) :
  data x <> None -> Forall (fun t => data t <> None) l ->
  exists r, insertR compareAmount x l = Ok r.
Proof.
  intros Hx. induction 1 as [|y l Hy _ [r IH]]; [now exists [x]|].
  cbn [insertR]. destruct (compareAmount_hasData x y Hx Hy) as [v ->].
  cbn [rbind]. destruct (sign v); eauto.
  rewrite IH. cbn [rbind]. eauto.
Qed.

Lemma sortR_hasData (l : list Transfer) :
  Forall (fun t => data t <> None) l ->
  exists r, sortR compareAmount l = Ok r.
Proof.
  induction 1 as [|x l Hx Hl [r IH]]; [now exists []|].
  cbn [sortR]. rewrite IH. cbn [rbind].
  apply insertR_hasData; [exact Hx|].
  apply Forall_forall. intros t Ht.
  rewrite Forall_forall in Hl. apply Hl.
  apply (Permutation_in _ (Permutation_sym (SortFacts.sortR_perm _ _ IH))).
  exact Ht.
Qed.

(** The sort goes through on a page in which every transfer has its data
    field, and on a page of one transfer or none, which it never
    compares. *)
Lemma sortR_goes_through (l : list Transfer) :
  (List.length l <= 1)%nat \/ Forall (fun t => data t <> None) l ->
  exists r, sortR compareAmount l = Ok r /\ Permutation l r.
Proof.
  intros H.
  assert (E : exists r, sortR compareAmount l = Ok r).
  { destruct H as [H|H]; [|now apply sortR_hasData].
    destruct l as [|x [|y l]]; [now exists [] | now exists [x]|].
    simpl in H. lia. }
  destruct E as [r E]. exists r. split; [exact E|].
  exact (SortFacts.sortR_perm _ _ E).
Qed.

Lemma renderRow_throw (host : Host) (locale : Locale) (t : Transfer)
      (e : exn) :
  renderRow host locale t = Throw e -> e = TypeError "slice".
Proof.
  unfold renderRow, addressCell, amountText.
  destruct (nth_error (topics t) 1); cbn [rbind]; [|congruence].
  destruct (nth_error (topics t) 2); cbn [rbind]; [|congruence].
  destruct (data t); cbn [rbind]; congruence.
Qed.

Lemma renderRow_undecodable (host : Host) (locale : Locale) (t : Transfer) :
  undecodable t -> renderRow host locale t = Throw (TypeError "slice").
Proof.
  unfold undecodable, lacksData, lacksAddress, renderRow, addressCell,
    amountText.
  intros [H|[H|H]].
  - rewrite H. destruct (nth_error (topics t) 1); cbn [rbind];
      [|reflexivity].
    destruct (nth_error (topics t) 2); reflexivity.
  - now rewrite H.
  - rewrite H. destruct (nth_error (topics t) 1); reflexivity.
Qed.

Lemma mapR_renderRow_undecodable (host : Host) (locale : Locale)
      (l : list Transfer) :
  Exists undecodable l ->
  mapR (renderRow host locale) l = Throw (TypeError "slice").
Proof.
  induction 1 as [t l Ht | t l _ IH]; cbn [mapR].
  - now rewrite renderRow_undecodable.
  - destruct (renderRow host locale t) as [row|e] eqn:E; cbn [rbind].
    + now rewrite IH.
    + f_equal. eauto using renderRow_throw.
Qed.

(** The guard of the fetch does not cover the rows.  A page with a
    transfer the table cannot decode, which the sort lets through (every
    transfer has its data field, or the page has one transfer only), is
    stored without a word on the console; the table body then throws
    where nothing catches it. *)
Theorem stored_page_can_break_the_table (host : Host) (locale : Locale)
        (events : list Transfer) (s : State) :
  Exists undecodable events ->
  (List.length events <= 1)%nat
  \/ Forall (fun t => data t <> None) events ->
  let after := getUsdcTransfers (API.Body (Some events)) s in
  fst after = Ok tt
  /\ console (snd after) = console s
  /\ Permutation events (transfers (snd after))
  /\ renderBody host locale (snd after) = Throw (TypeError "slice").
Proof.
  intros Hex Hsort. cbv zeta.
  destruct (sortR_goes_through Hsort) as (r & Hr & Hp).
  rewrite (@getUsdcTransfers_ok (Some events) r s Hr). cbn [fst snd].
  split; [reflexivity|]. split; [reflexivity|]. split; [exact Hp|].
  unfold renderBody. cbn [loading transfers].
  rewrite mapR_renderRow_undecodable; [reflexivity|].
  apply Exists_exists. apply Exists_exists in Hex.
  destruct Hex as (t & Hin & Ht). exists t. split; [|exact Ht].
  now apply (Permutation_in _ Hp).
Qed.

Lemma stored_page_can_break_the_table_witness :
  console (snd (getUsdcTransfers (API.Body (Some [newest; Sample2.noTopics]))
                                 initial)) = []
  /\ renderBody utc Sample2.plainLocale
       (snd (getUsdcTransfers (API.Body (Some [newest; Sample2.noTopics]))
                              initial))
     = Throw (TypeError "slice").
Proof.
  assert (H : Exists undecodable [newest; Sample2.noTopics]).
  { apply Exists_cons_tl, Exists_cons_hd. right. now left. }
  assert (G : (List.length [newest; Sample2.noTopics] <= 1)%nat
              \/ Forall (fun t : Transfer => data t <> None)
                        [newest; Sample2.noTopics]).
  { right. repeat constructor; discriminate. }
  destruct (@stored_page_can_break_the_table utc Sample2.plainLocale
              [newest; Sample2.noTopics] initial H G)
    as (_ & Hc & _ & Hr).
  split; [exact Hc | exact Hr].
Defined.

(** ** When the table prints an error *)

(** The table prints to the console only when the call rejects, the body
    has no [data] array, or the sort meets a transfer without data on a
    page of two or more. *)
Theorem table_prints_only_on (fetched : Fetched) (s : State) :
  console (snd (getUsdcTransfers fetched s)) <> console s ->
  tableFails fetched.
Proof.
  destruct fetched as [x | [events|]]; intros H.
  - left. now exists x.
  - destruct (VolumeChartFacts.lacksData_dec events) as [Hex|Hall].
    + destruct events as [|a [|b events]].
      * inversion Hex.
      * exfalso. apply H. reflexivity.
      * right. right. exists (a :: b :: events).
        split; [reflexivity|]. split; [simpl; lia | exact Hex].
    + exfalso. apply H.
      destruct (sortR_hasData Hall) as [r Hr].
      now rewrite (@getUsdcTransfers_ok (Some events) r s Hr).
  - right. now left.
Qed.

Lemma table_prints_only_on_witness :
  tableFails (API.Body (Some [newest; newestOtherFields])).
Proof.
  apply (@table_prints_only_on (API.Body (Some [newest; newestOtherFields]))
           initial).
  discriminate.
Defined.

(** ** Data fields too short to hold a digit *)

(** A data field of two characters or fewer, such as a bare [0x], holds
    no digit: the table writes [NaN] for it, and the volume chart and the
    wallet aggregator read [NaN] on it. *)
Theorem short_data_is_NaN (host : Host) (event : Event) (d : string) :
  data event = Some d ->
  (String.length d <= 2)%nat ->
  decodeAmount host d = "NaN"
  /\ amountText host event = Ok "NaN"
  /\ eventAmount event = NaN
  /\ movedAmount event = NaN.
Proof.
  intros Hd Hlen.
  assert (Hs : slice 2 d = "").
  { destruct d as [|c1 [|c2 [|c3 d]]]; try reflexivity. simpl in Hlen. lia. }
  unfold amountText, eventAmount, movedAmount, chartAmount, decodeAmount.
  rewrite Hd, Hs. repeat split.
Qed.

Lemma short_data_is_NaN_witness :
  amountText utc Sample2.noDigits = Ok "NaN"
  /\ movedAmount Sample2.noDigits = NaN.
Proof.
  destruct (@short_data_is_NaN utc Sample2.noDigits "0x" eq_refl)
    as (_ & H1 & _ & H2).
  - simpl. lia.
  - split; [exact H1 | exact H2].
Defined.

End TableFacts.

(* ===================================================================== *)
(** * All four views *)
(* ===================================================================== *)

Module AllViewsFacts.
Import API Spec Notions.

Lemma chart_throw (host : Host) (e : Event) (events : list Event) (x : exn)
      (s : UsdcTransferChart.State) :
  UsdcTransferChart.formatData host (e :: events) = Throw x ->
  UsdcTransferChart.getUsdcTransfers host (Body (Some (e :: events))) s
  = (Ok tt, chartFailed s x).
Proof.
  intros H.
  unfold UsdcTransferChart.getUsdcTransfers, Effect.tryCatchFinally,
    Effect.bind, Effect.await, Effect.ret, Effect.lift.
  cbn -[UsdcTransferChart.formatData].
  match goal with
  | |- context [match ?t with Ok _ => _ | Throw _ => _ end] =>
      replace t with (@Throw (list UsdcTransferChart.ChartData) x)
        by (symmetry; exact H)
  end.
  reflexivity.
Qed.

Lemma wallets_throw (e : Event) (events : list Event) (x : exn)
      (s : TopUsdcWallets.State) :
  forEachR TopUsdcWallets.processEvent [] (e :: events) = Throw x ->
  TopUsdcWallets.getTopWallets (Body (Some (e :: events))) s
  = (Ok tt, walletsFailed s x).
Proof.
  intros H.
  unfold TopUsdcWallets.getTopWallets, Effect.tryCatchFinally,
    Effect.bind, Effect.await, Effect.ret, Effect.lift.
  cbn -[forEachR TopUsdcWallets.processEvent TopUsdcWallets.sortedWallets].
  match goal with
  | |- context [match ?t with Ok _ => _ | Throw _ => _ end] =>
      replace t with (@Throw TopUsdcWallets.WalletMap x)
        by (symmetry; exact H)
  end.
  reflexivity.
Qed.

(** Whatever the network call yields, each of the four fetch functions
    returns normally with both loading flags cleared: no exception
    escapes it, the loading placeholder goes away and the refresh button
    is enabled again. *)
Theorem fetch_always_settles (host : Host) (fetched : Fetched) :
  (forall s,
      let after := UsdcTransfers.getUsdcTransfers fetched s in
      fst after = Ok tt
      /\ UsdcTransfers.loading (snd after) = false
      /\ UsdcTransfersView.refreshDisabled (snd after) = false)
  /\ (forall s,
        let after := UsdcTransferChart.getUsdcTransfers host fetched s in
        fst after = Ok tt
        /\ UsdcTransferChart.loading (snd after) = false
        /\ UsdcTransferChartView.refreshDisabled (snd after) = false)
  /\ (forall s,
        let after := TopUsdcWallets.getTopWallets fetched s in
        fst after = Ok tt
        /\ TopUsdcWallets.loading (snd after) = false
        /\ TopUsdcWalletsView.refreshDisabled (snd after) = false)
  /\ (forall s,
        let after := UsdcVolumeChart.getVolumeData host fetched s in
        fst after = Ok tt
        /\ UsdcVolumeChart.loading (snd after) = false
        /\ UsdcVolumeChartView.refreshDisabled (snd after) = false).
Proof.
  split; [|split; [|split]]; intros s; cbv zeta.
  - destruct fetched as [x | body].
    + now rewrite UsdcTransfersFacts.getUsdcTransfers_rejected.
    + destruct (UsdcTransfers.sortTransfers body) as [r|x] eqn:E.
      * now rewrite (@UsdcTransfersFacts.getUsdcTransfers_ok body r s E).
      * now rewrite (@UsdcTransfersFacts.getUsdcTransfers_throw body x s E).
  - destruct fetched as [x | [[|e events]|]]; try (repeat split; fail).
    destruct (UsdcTransferChart.formatData host (e :: events))
      as [chart|x] eqn:E.
    + pose proof (@VolumeChartFacts.getUsdcTransfers_ready
                    host e events chart s E) as Hrun.
      unfold UsdcTransferChart.TransferEvent in Hrun. now rewrite Hrun.
    + now rewrite (@chart_throw host e events x s E).
  - destruct fetched as [x | [[|e events]|]]; try (repeat split; fail).
    destruct (forEachR TopUsdcWallets.processEvent [] (e :: events))
      as [m|x] eqn:E.
    + assert (Hrun : TopUsdcWallets.getTopWallets
                       (Body (Some (e :: events))) s
                     = (Ok tt,
                        {| TopUsdcWallets.walletStats :=
                             TopUsdcWallets.sortedWallets m;
                           TopUsdcWallets.loading := false;
                           TopUsdcWallets.isRefreshing := false;
                           TopUsdcWallets.error := None;
                           TopUsdcWallets.console :=
                             TopUsdcWallets.console s |})).
      { apply TopUsdcWalletsFacts.getTopWallets_ok; [discriminate|exact E]. }
      now rewrite Hrun.
    + now rewrite (@wallets_throw e events x s E).
  - destruct fetched as [x | [[|e events]|]]; repeat split.
Qed.

End AllViewsFacts.
